(** * The mini program's transport, normalizer and history code, in Rocq

    A shallow embedding of
    - [utils/request.js]: [getStoredBaseUrl], [setBaseUrl], [withFallback],
      [_wxRequest], [post], [get], [ping];
    - [pages/home/home.js]: [fetchSuggestion], [_saveHistoryItem];
    - [pages/chat/chat.js]: [onSend], [_saveHistory], [addUser], [addBot];
    - [pages/history/history.js]: [onClear];
    together with the pieces of the JavaScript runtime they call (strings,
    [JSON.parse], [JSON.stringify], the two regular expressions) and of the
    WeChat runtime (storage, [wx.request], toasts), followed by the
    properties of the specification. *)

From Stdlib Require Import ZArith NArith Ascii String List Lia DecimalString.
From stdpp Require Import base option list gmap strings.

Set Warnings "-register-all".

Local Open Scope N_scope.

(** ** JavaScript strings

    A JavaScript string is a sequence of UTF-16 code units; a code unit is
    kept as an [N]. *)

Abbreviation jsstring := (list N).

Definition js (s : string) : jsstring :=
  map N_of_ascii (list_ascii_of_string s).

(** [WhiteSpace] and [LineTerminator] code units: what [String.prototype.trim]
    removes and what [\s] matches. *)
Definition is_space (c : N) : bool :=
  ((9 <=? c) && (c <=? 13)) || (c =? 32) || (c =? 160) || (c =? 5760)
  || ((8192 <=? c) && (c <=? 8202)) || (c =? 8232) || (c =? 8233)
  || (c =? 8239) || (c =? 8287) || (c =? 12288) || (c =? 65279).

Fixpoint skip_space (s : jsstring) : jsstring :=
  match s with
  | c :: s' => if is_space c then skip_space s' else s
  | [] => []
  end.

(** [s.trim()] *)
Definition trim (s : jsstring) : jsstring :=
  rev (skip_space (rev (skip_space s))).

Fixpoint starts_with (p s : jsstring) : bool :=
  match p, s with
  | [], _ => true
  | a :: p', b :: s' => (a =? b) && starts_with p' s'
  | _ :: _, [] => false
  end.

(** [s.includes(sub)] *)
Fixpoint includes (sub s : jsstring) : bool :=
  starts_with sub s ||
  match s with
  | [] => false
  | _ :: s' => includes sub s'
  end.

(** [s.split(sep)] for a one-unit separator: never empty, [''.split(sep)] is
    [['']]. *)
Fixpoint split (sep : N) (s : jsstring) : list jsstring :=
  match s with
  | [] => [[]]
  | c :: s' =>
      if c =? sep then [] :: split sep s'
      else match split sep s' with
           | seg :: rest => (c :: seg) :: rest
           | [] => [[c]]
           end
  end.

(** [parts.join(sep)] on an array of strings. *)
Fixpoint join (sep : jsstring) (parts : list jsstring) : jsstring :=
  match parts with
  | [] => []
  | p :: rest =>
      match rest with
      | [] => p
      | _ :: _ => p ++ sep ++ join sep rest
      end
  end.

(** Decimal rendering of an integer, as a template literal renders an
    integral number. *)
Definition dec (z : Z) : jsstring :=
  js (NilZero.string_of_int (Z.to_int z)).

(** ** JavaScript values

    The JSON-shaped values that cross the program: storage contents, request
    and response bodies, learning items. A number is kept as the exact
    decimal [m * 10^e] it was written as; rounding to binary64 is not
    modelled. An object is its list of own properties with distinct keys. *)

Inductive JSVal : Type :=
| JUndefined
| JNull
| JBool (b : bool)
| JNum (m e : Z)
| JStr (s : jsstring)
| JArr (elems : list JSVal)
| JObj (props : list (jsstring * JSVal)).

(** ToBoolean *)
Definition truthy (v : JSVal) : bool :=
  match v with
  | JUndefined | JNull => false
  | JBool b => b
  | JNum m _ => negb (m =? 0)%Z
  | JStr s => match s with [] => false | _ :: _ => true end
  | JArr _ | JObj _ => true
  end.

(** [a || b] *)
Definition js_or (a b : JSVal) : JSVal := if truthy a then a else b.

(** [a || b] on strings. *)
Definition str_or (a b : jsstring) : jsstring :=
  match a with
  | [] => b
  | _ :: _ => a
  end.

Definition jsstring_eqb (a b : jsstring) : bool := bool_decide (a = b).

Fixpoint lookup_prop (k : jsstring) (props : list (jsstring * JSVal)) : JSVal :=
  match props with
  | [] => JUndefined
  | (k', v) :: rest => if jsstring_eqb k k' then v else lookup_prop k rest
  end.

(** [v.k] for a key that no prototype defines ([learned], [reply], [ts], ...):
    own property of an object, [undefined] on anything else that is not
    [null] or [undefined]. *)
Definition get_prop (v : JSVal) (k : jsstring) : JSVal :=
  match v with
  | JObj props => lookup_prop k props
  | _ => JUndefined
  end.

(** [o[k] = v]: replaces the value in place or adds the property last. *)
Fixpoint set_prop (k : jsstring) (v : JSVal) (props : list (jsstring * JSVal))
  : list (jsstring * JSVal) :=
  match props with
  | [] => [(k, v)]
  | (k', v') :: rest =>
      if jsstring_eqb k k' then (k', v) :: rest
      else (k', v') :: set_prop k v rest
  end.

Fixpoint indexed {A} (i : nat) (l : list A) : list (jsstring * A) :=
  match l with
  | [] => []
  | x :: l' => (dec (Z.of_nat i), x) :: indexed (S i) l'
  end.

(** The own enumerable properties that [{...v}] copies. *)
Definition spread (v : JSVal) : list (jsstring * JSVal) :=
  match v with
  | JObj props => props
  | JArr elems => indexed 0 elems
  | JStr s => indexed 0 (map (fun c => JStr [c]) s)
  | _ => []
  end.

(** [Array.isArray(v) && v.length > 0] *)
Definition nonempty_array (v : JSVal) : option (JSVal * list JSVal) :=
  match v with
  | JArr (x :: rest) => Some (x, rest)
  | _ => None
  end.

(** *** Number::toString on the decimal [m * 10^e] *)

Fixpoint digits_of (fuel : nat) (n : N) (acc : list N) : list N :=
  match fuel with
  | O => acc
  | S fuel' =>
      if n <? 10 then n :: acc
      else digits_of fuel' (n / 10) (n mod 10 :: acc)
  end.

Fixpoint strip_zeros (rev_digits : list N) (e : Z) : list N * Z :=
  match rev_digits with
  | 0 :: rest => strip_zeros rest (e + 1)%Z
  | _ => (rev rev_digits, e)
  end.

Definition digit_chars (ds : list N) : jsstring := map (fun d => 48 + d) ds.

Definition Number_toString (m e : Z) : jsstring :=
  if (m =? 0)%Z then js "0" else
  let a := Z.to_N (Z.abs m) in
  let '(ds, e') := strip_zeros (rev (digits_of (N.to_nat (N.log2 a) + 1) a [])) e in
  let k := Z.of_nat (length ds) in
  let n := (k + e')%Z in
  let sign := if (m <? 0)%Z then js "-" else [] in
  let body :=
    if ((k <=? n) && (n <=? 21))%Z then
      digit_chars ds ++ repeat 48 (Z.to_nat (n - k))
    else if ((0 <? n) && (n <=? 21))%Z then
      digit_chars (take (Z.to_nat n) ds) ++ js "." ++ digit_chars (drop (Z.to_nat n) ds)
    else if ((-6 <? n) && (n <=? 0))%Z then
      js "0." ++ repeat 48 (Z.to_nat (- n)) ++ digit_chars ds
    else
      let ex := (if (n - 1 <? 0)%Z then js "e-" else js "e+") ++ dec (Z.abs (n - 1)) in
      match ds with
      | [d] => digit_chars [d] ++ ex
      | d :: rest => digit_chars [d] ++ js "." ++ digit_chars rest ++ ex
      | [] => ex
      end
  in sign ++ body.

(** [String(v)], also what a template literal applies to [v]. *)
Fixpoint ToString (v : JSVal) : jsstring :=
  match v with
  | JUndefined => js "undefined"
  | JNull => js "null"
  | JBool true => js "true"
  | JBool false => js "false"
  | JNum m e => Number_toString m e
  | JStr s => s
  | JArr elems =>
      (fix go (l : list JSVal) : jsstring :=
         match l with
         | [] => []
         | x :: l' =>
             match x with
             | JUndefined | JNull => []
             | _ => ToString x
             end ++
             match l' with
             | [] => []
             | _ :: _ => 44 :: go l'
             end
         end) elems
  | JObj _ => js "[object Object]"
  end.


(** ** JSON

    [JSON.parse] follows the JSON grammar (ECMA-404); [None] stands for the
    [SyntaxError] it throws. The recursion is on a fuel that the entry point
    sets above the length of the text; it never runs out, since every nested
    value and every further element consumes at least one code unit
    ([parse_value_fuel] below: above the length, the fuel does not change
    the result). Members with integer-like keys are kept in the order of the
    text. *)

Definition is_json_ws (c : N) : bool :=
  (c =? 32) || (c =? 9) || (c =? 10) || (c =? 13).

Fixpoint skip_json_ws (s : jsstring) : jsstring :=
  match s with
  | c :: s' => if is_json_ws c then skip_json_ws s' else s
  | [] => []
  end.

Definition is_digit (c : N) : bool := (48 <=? c) && (c <=? 57).

Fixpoint span_digits (s : jsstring) : list N * jsstring :=
  match s with
  | c :: s' =>
      if is_digit c then let '(ds, r) := span_digits s' in (c - 48 :: ds, r)
      else ([], s)
  | [] => ([], [])
  end.

Definition digits_value (ds : list N) : Z :=
  fold_left (fun a d => a * 10 + Z.of_N d)%Z ds 0%Z.

Definition hex_value (c : N) : option N :=
  if is_digit c then Some (c - 48)
  else if (97 <=? c) && (c <=? 102) then Some (c - 87)
  else if (65 <=? c) && (c <=? 70) then Some (c - 55)
  else None.

Definition hex4 (a b c d : N) : option N :=
  match hex_value a, hex_value b, hex_value c, hex_value d with
  | Some x, Some y, Some z, Some w => Some (((x * 16 + y) * 16 + z) * 16 + w)
  | _, _, _, _ => None
  end.

(** The code unit an escape letter stands for: quote, backslash, slash, b, f,
    n, r, t. *)
Definition unescape (c : N) : option N :=
  if c =? 34 then Some 34
  else if c =? 92 then Some 92
  else if c =? 47 then Some 47
  else if c =? 98 then Some 8
  else if c =? 102 then Some 12
  else if c =? 110 then Some 10
  else if c =? 114 then Some 13
  else if c =? 116 then Some 9
  else None.

Definition cons_fst {A B} (a : A) (r : option (list A * B)) : option (list A * B) :=
  match r with
  | Some (l, b) => Some (a :: l, b)
  | None => None
  end.

(** The text after an opening quote: the string's value and what follows the
    closing quote. *)
Fixpoint parse_string_body (s : jsstring) : option (jsstring * jsstring) :=
  match s with
  | [] => None
  | c :: rest =>
      if c =? 34 then Some ([], rest)
      else if c =? 92 then
        match rest with
        | [] => None
        | esc :: rest1 =>
            if esc =? 117 then
              match rest1 with
              | h1 :: h2 :: h3 :: h4 :: rest2 =>
                  match hex4 h1 h2 h3 h4 with
                  | Some u => cons_fst u (parse_string_body rest2)
                  | None => None
                  end
              | _ => None
              end
            else
              match unescape esc with
              | Some u => cons_fst u (parse_string_body rest1)
              | None => None
              end
        end
      else if c <? 32 then None
      else cons_fst c (parse_string_body rest)
  end.

Definition parse_number (s : jsstring) : option (JSVal * jsstring) :=
  let '(neg, s1) := match s with
                    | c :: s' => if c =? 45 then (true, s') else (false, s)
                    | [] => (false, s)
                    end in
  let int_part :=
    match s1 with
    | c :: s2 =>
        if c =? 48 then Some ([0], s2)
        else if is_digit c then Some (span_digits s1)
        else None
    | [] => None
    end in
  match int_part with
  | None => None
  | Some (ints, s2) =>
      let frac_part :=
        match s2 with
        | c :: s3 =>
            if c =? 46 then
              match span_digits s3 with
              | ([], _) => None
              | (fs, s4) => Some (fs, s4)
              end
            else Some ([], s2)
        | [] => Some ([], s2)
        end in
      match frac_part with
      | None => None
      | Some (fracs, s4) =>
          let exp_part :=
            match s4 with
            | c :: s5 =>
                if (c =? 101) || (c =? 69) then
                  let '(eneg, s6) :=
                    match s5 with
                    | d :: s6 =>
                        if d =? 45 then (true, s6)
                        else if d =? 43 then (false, s6)
                        else (false, s5)
                    | [] => (false, s5)
                    end in
                  match span_digits s6 with
                  | ([], _) => None
                  | (es, s7) =>
                      Some ((if eneg then - digits_value es else digits_value es)%Z, s7)
                  end
                else Some (0%Z, s4)
            | [] => Some (0%Z, s4)
            end in
          match exp_part with
          | None => None
          | Some (ex, s7) =>
              let mag := digits_value (ints ++ fracs) in
              Some (JNum (if neg then - mag else mag)%Z
                         (ex - Z.of_nat (length fracs))%Z, s7)
          end
      end
  end.

(** The elements of an array after its first bracket. *)
Fixpoint parse_elems (fuel : nat) (pv : jsstring -> option (JSVal * jsstring))
    (s : jsstring) (acc : list JSVal) : option (list JSVal * jsstring) :=
  match fuel with
  | O => None
  | S fuel' =>
      match pv s with
      | None => None
      | Some (v, s1) =>
          match skip_json_ws s1 with
          | c :: s2 =>
              if c =? 44 then parse_elems fuel' pv s2 (v :: acc)
              else if c =? 93 then Some (rev (v :: acc), s2)
              else None
          | [] => None
          end
      end
  end.

(** The members of an object after its first brace; a repeated key keeps its
    first place and takes the last value. *)
Fixpoint parse_members (fuel : nat) (pv : jsstring -> option (JSVal * jsstring))
    (s : jsstring) (acc : list (jsstring * JSVal))
  : option (list (jsstring * JSVal) * jsstring) :=
  match fuel with
  | O => None
  | S fuel' =>
      match skip_json_ws s with
      | q :: s1 =>
          if q =? 34 then
            match parse_string_body s1 with
            | None => None
            | Some (k, s2) =>
                match skip_json_ws s2 with
                | colon :: s3 =>
                    if colon =? 58 then
                      match pv s3 with
                      | None => None
                      | Some (v, s4) =>
                          match skip_json_ws s4 with
                          | c :: s5 =>
                              if c =? 44 then parse_members fuel' pv s5 (set_prop k v acc)
                              else if c =? 125 then Some (set_prop k v acc, s5)
                              else None
                          | [] => None
                          end
                      end
                    else None
                | [] => None
                end
            end
          else None
      | [] => None
      end
  end.

Fixpoint parse_value (fuel : nat) (s : jsstring) : option (JSVal * jsstring) :=
  match fuel with
  | O => None
  | S fuel' =>
      match skip_json_ws s with
      | [] => None
      | c :: s1 =>
          if c =? 91 then                                  
            match skip_json_ws s1 with
            | d :: s2 =>
                if d =? 93 then Some (JArr [], s2)
                else match parse_elems fuel' (parse_value fuel') s1 [] with
                     | Some (l, r) => Some (JArr l, r)
                     | None => None
                     end
            | [] => None
            end
          else if c =? 123 then                            
            match skip_json_ws s1 with
            | d :: s2 =>
                if d =? 125 then Some (JObj [], s2)
                else match parse_members fuel' (parse_value fuel') s1 [] with
                     | Some (l, r) => Some (JObj l, r)
                     | None => None
                     end
            | [] => None
            end
          else if c =? 34 then                             
            match parse_string_body s1 with
            | Some (str, r) => Some (JStr str, r)
            | None => None
            end
          else if starts_with (js "true") (c :: s1) then Some (JBool true, drop 4 (c :: s1))
          else if starts_with (js "false") (c :: s1) then Some (JBool false, drop 5 (c :: s1))
          else if starts_with (js "null") (c :: s1) then Some (JNull, drop 4 (c :: s1))
          else parse_number (c :: s1)
      end
  end.

(** [JSON.parse(text)] *)
Definition JSON_parse (text : jsstring) : option JSVal :=
  match parse_value (S (length text)) text with
  | Some (v, rest) =>
      match skip_json_ws rest with
      | [] => Some v
      | _ :: _ => None
      end
  | None => None
  end.

(** [JSON.stringify]: quoting of a string. *)
Definition hex_char (d : N) : N := if d <? 10 then 48 + d else 87 + d.

Definition u_escape (c : N) : jsstring :=
  [92; 117; hex_char (c / 4096); hex_char ((c / 256) mod 16);
   hex_char ((c / 16) mod 16); hex_char (c mod 16)].

Definition is_high_surrogate (c : N) : bool := (55296 <=? c) && (c <=? 56319).
Definition is_low_surrogate (c : N) : bool := (56320 <=? c) && (c <=? 57343).

Fixpoint quote_body (s : jsstring) : jsstring :=
  match s with
  | [] => []
  | c :: rest =>
      if c =? 8 then js "\b" ++ quote_body rest
      else if c =? 9 then js "\t" ++ quote_body rest
      else if c =? 10 then js "\n" ++ quote_body rest
      else if c =? 12 then js "\f" ++ quote_body rest
      else if c =? 13 then js "\r" ++ quote_body rest
      else if c =? 34 then [92; 34] ++ quote_body rest
      else if c =? 92 then [92; 92] ++ quote_body rest
      else if c <? 32 then u_escape c ++ quote_body rest
      else if is_high_surrogate c then
        match rest with
        | d :: rest' =>
            if is_low_surrogate d then c :: d :: quote_body rest'
            else u_escape c ++ quote_body rest
        | [] => u_escape c
        end
      else if is_low_surrogate c then u_escape c ++ quote_body rest
      else c :: quote_body rest
  end.

Definition quote (s : jsstring) : jsstring := 34 :: quote_body s ++ [34].

(** [JSON.stringify(v)] for a value that is not [undefined]. *)
Fixpoint stringify (v : JSVal) : jsstring :=
  match v with
  | JUndefined | JNull => js "null"
  | JBool true => js "true"
  | JBool false => js "false"
  | JNum m e => Number_toString m e
  | JStr s => quote s
  | JArr elems =>
      91 :: (fix go (l : list JSVal) : jsstring :=
               match l with
               | [] => []
               | x :: l' =>
                   stringify x ++
                   match l' with
                   | [] => []
                   | _ :: _ => 44 :: go l'
                   end
               end) elems ++ [93]
  | JObj props =>
      123 :: (fix go (first : bool) (l : list (jsstring * JSVal)) : jsstring :=
                match l with
                | [] => []
                | (k, x) :: l' =>
                    match x with
                    | JUndefined => go first l'
                    | _ => (if first then [] else [44]) ++ quote k ++ 58 :: stringify x
                           ++ go false l'
                    end
                end) true props ++ [125]
  end.

(** [JSON.stringify(v)]; [None] is the [undefined] it returns for
    [undefined]. *)
Definition JSON_stringify (v : JSVal) : option jsstring :=
  match v with
  | JUndefined => None
  | _ => Some (stringify v)
  end.

(** ** The two regular expressions over the tagged block *)

Definition OPEN_TAG : jsstring := js "<learned_json>".
Definition CLOSE_TAG : jsstring := js "</learned_json>".

(** Number of code units up to the end of the first closing tag. *)
Fixpoint close_end (s : jsstring) : option nat :=
  if starts_with CLOSE_TAG s then Some (length CLOSE_TAG)
  else match s with
       | [] => None
       | _ :: s' => option_map S (close_end s')
       end.

(** Length of the match of [/<learned_json>[\s\S]*?<\/learned_json>/] that
    starts at the head of [s]: the lazy star stops at the first closing
    tag. *)
Definition block_at (s : jsstring) : option nat :=
  if starts_with OPEN_TAG s
  then option_map (Nat.add (length OPEN_TAG)) (close_end (drop (length OPEN_TAG) s))
  else None.

(** One left-to-right pass that drops every match; [skip] counts the code
    units of the current match still to drop. *)
Fixpoint remove_blocks (skip : nat) (s : jsstring) : jsstring :=
  match s with
  | [] => []
  | c :: s' =>
      match skip with
      | S k => remove_blocks k s'
      | O =>
          match block_at s with
          | Some n => remove_blocks (Nat.pred n) s'
          | None => c :: remove_blocks 0 s'
          end
      end
  end.

(** [text.replace(/<learned_json>[\s\S]*?<\/learned_json>/g, '')] *)
Definition strip_learned (text : jsstring) : jsstring := remove_blocks 0 text.

(** The lazy group [([\s\S]*?)] followed by [\s*<\/learned_json>]: the
    shortest prefix after which white space and the closing tag follow. *)
Fixpoint lazy_group (s : jsstring) : option jsstring :=
  if starts_with CLOSE_TAG (skip_space s) then Some []
  else match s with
       | [] => None
       | c :: s' => option_map (cons c) (lazy_group s')
       end.

(** The group of [/<learned_json>\s*([\s\S]*?)\s*<\/learned_json>/] matched
    at the head of [s]. The greedy [\s*] takes the whole run of white space:
    giving some of it back cannot help, the closing tag starts with [<]. *)
Definition group_at (s : jsstring) : option jsstring :=
  if starts_with OPEN_TAG s
  then lazy_group (skip_space (drop (length OPEN_TAG) s))
  else None.

(** [text.match(/<learned_json>\s*([\s\S]*?)\s*<\/learned_json>/)]: [m[1]]
    of the leftmost match, [None] when [m] is [null]. *)
Fixpoint match_learned (s : jsstring) : option jsstring :=
  match group_at s with
  | Some g => Some g
  | None =>
      match s with
      | [] => None
      | _ :: s' => match_learned s'
      end
  end.

(** ** The environment: storage, network, clock, pages *)

Inductive Method := GET | POST.

Record Request := {
  url : jsstring;
  method : Method;
  body : JSVal
}.

(** What [wx.request] hands to [success] or to [fail]. *)
Inductive wx_response :=
| wx_success (statusCode : Z) (data : JSVal)
| wx_fail (err : JSVal).

(** What is thrown, or what a promise is rejected with. *)
Inductive Exn :=
| HttpError (message : jsstring)
| Rejected (err : JSVal)
| TypeError
| SyntaxError
| StorageError.

Inductive Event :=
| EvRequest (r : Request)
| EvSetStorage (key : string) (v : JSVal)
| EvToast (title : jsstring)
| EvConsoleError (label : jsstring).

Inductive Role := user | bot.

Record ChatMessage := {
  msg_id : jsstring;
  role : Role;
  text : jsstring
}.

(** What the program cannot control: whether the n-th storage call throws,
    the answer to the n-th [wx.request], the n-th reading of [Date.now()]. *)
Record Env := {
  storage_fault : nat -> bool;
  network : nat -> Request -> wx_response;
  clock : nat -> Z
}.

Record World := {
  env : Env;
  storage : gmap string JSVal;
  storage_calls : nat;
  requests : nat;
  clock_reads : nat;
  trace : list Event;
  suggestion : JSVal;
  messages : list ChatMessage;
  lastMessageId : jsstring;
  inputText : jsstring;
  sending : bool;
  sessionId : jsstring
}.

Definition with_storage (f : gmap string JSVal -> gmap string JSVal) (w : World) : World :=
  {| env := env w; storage := f (storage w); storage_calls := S (storage_calls w);
     requests := requests w; clock_reads := clock_reads w; trace := trace w;
     suggestion := suggestion w; messages := messages w;
     lastMessageId := lastMessageId w; inputText := inputText w;
     sending := sending w; sessionId := sessionId w |}.

Definition with_request (w : World) : World :=
  {| env := env w; storage := storage w; storage_calls := storage_calls w;
     requests := S (requests w); clock_reads := clock_reads w; trace := trace w;
     suggestion := suggestion w; messages := messages w;
     lastMessageId := lastMessageId w; inputText := inputText w;
     sending := sending w; sessionId := sessionId w |}.

Definition with_clock_read (w : World) : World :=
  {| env := env w; storage := storage w; storage_calls := storage_calls w;
     requests := requests w; clock_reads := S (clock_reads w); trace := trace w;
     suggestion := suggestion w; messages := messages w;
     lastMessageId := lastMessageId w; inputText := inputText w;
     sending := sending w; sessionId := sessionId w |}.

Definition with_event (ev : Event) (w : World) : World :=
  {| env := env w; storage := storage w; storage_calls := storage_calls w;
     requests := requests w; clock_reads := clock_reads w; trace := trace w ++ [ev];
     suggestion := suggestion w; messages := messages w;
     lastMessageId := lastMessageId w; inputText := inputText w;
     sending := sending w; sessionId := sessionId w |}.

Definition with_suggestion (v : JSVal) (w : World) : World :=
  {| env := env w; storage := storage w; storage_calls := storage_calls w;
     requests := requests w; clock_reads := clock_reads w; trace := trace w;
     suggestion := v; messages := messages w;
     lastMessageId := lastMessageId w; inputText := inputText w;
     sending := sending w; sessionId := sessionId w |}.

Definition with_message (m : ChatMessage) (w : World) : World :=
  {| env := env w; storage := storage w; storage_calls := storage_calls w;
     requests := requests w; clock_reads := clock_reads w; trace := trace w;
     suggestion := suggestion w; messages := messages w ++ [m];
     lastMessageId := js "msg-" ++ msg_id m; inputText := inputText w;
     sending := sending w; sessionId := sessionId w |}.

Definition with_input (t : jsstring) (w : World) : World :=
  {| env := env w; storage := storage w; storage_calls := storage_calls w;
     requests := requests w; clock_reads := clock_reads w; trace := trace w;
     suggestion := suggestion w; messages := messages w;
     lastMessageId := lastMessageId w; inputText := t;
     sending := sending w; sessionId := sessionId w |}.

Definition with_sending (b : bool) (w : World) : World :=
  {| env := env w; storage := storage w; storage_calls := storage_calls w;
     requests := requests w; clock_reads := clock_reads w; trace := trace w;
     suggestion := suggestion w; messages := messages w;
     lastMessageId := lastMessageId w; inputText := inputText w;
     sending := b; sessionId := sessionId w |}.

(** ** Computations: state and exceptions

    A synchronous call and an awaited promise are both a computation that
    takes the world and either returns or throws (rejects). *)

Inductive Result (A : Type) :=
| Returns (a : A)
| Throws (e : Exn).
Arguments Returns {A} a.
Arguments Throws {A} e.

Definition M (A : Type) : Type := World -> Result A * World.

Definition ret {A} (a : A) : M A := fun w => (Returns a, w).

Definition throw {A} (e : Exn) : M A := fun w => (Throws e, w).

Definition bind {A B} (m : M A) (k : A -> M B) : M B := fun w =>
  match m w with
  | (Returns a, w') => k a w'
  | (Throws e, w') => (Throws e, w')
  end.

(** [try { m } catch (e) { h e }], and [p.catch(h)] *)
Definition try_catch {A} (m : M A) (h : Exn -> M A) : M A := fun w =>
  match m w with
  | (Returns a, w') => (Returns a, w')
  | (Throws e, w') => h e w'
  end.

(** [p.finally(f)] for an [f] that does not throw. *)
Definition finally {A} (m : M A) (f : World -> World) : M A := fun w =>
  let '(r, w') := m w in (r, f w').

Definition settled {A} (r : Result A) : M A := fun w => (r, w).

Definition modify (f : World -> World) : M unit := fun w => (Returns tt, f w).

Notation "'let!' x ':=' m 'in' k" := (bind m (fun x => k))
  (at level 10, x pattern, m at level 100, k at level 200).
Notation "m '>>' k" := (bind m (fun _ => k))
  (at level 90, right associativity).

(** *** The WeChat and JavaScript primitives *)

(** A key that was never set reads as the empty string. *)
Definition wx_getStorageSync (key : string) : M JSVal := fun w =>
  if storage_fault (env w) (storage_calls w)
  then (Throws StorageError, with_storage id w)
  else (Returns (default (JStr []) (storage w !! key)), with_storage id w).

Definition wx_setStorageSync (key : string) (v : JSVal) : M unit := fun w =>
  let w1 := with_event (EvSetStorage key v) w in
  if storage_fault (env w) (storage_calls w)
  then (Throws StorageError, with_storage id w1)
  else (Returns tt, with_storage (insert key v) w1).

Definition wx_request (r : Request) : M wx_response := fun w =>
  (Returns (network (env w) (requests w) r), with_request (with_event (EvRequest r) w)).

Definition wx_showToast (title : jsstring) : M unit := modify (with_event (EvToast title)).

Definition console_error (label : jsstring) : M unit :=
  modify (with_event (EvConsoleError label)).

Definition Date_now : M Z := fun w =>
  (Returns (clock (env w) (clock_reads w)), with_clock_read w).

(** [JSON.parse] as a call that may throw. *)
Definition JSON_parse_call (text : jsstring) : M JSVal :=
  match JSON_parse text with
  | Some v => ret v
  | None => throw SyntaxError
  end.

(** ** [utils/request.js] *)

Definition DEFAULTS : list jsstring :=
  [js "http://127.0.0.1:8000"; js "http://localhost:8000"].

Definition DEFAULTS_0 : jsstring := nth 0 DEFAULTS [].
Definition DEFAULTS_1 : jsstring := nth 1 DEFAULTS [].

Definition getStoredBaseUrl : M JSVal :=
  try_catch
    (let! v := wx_getStorageSync "BASE_URL" in
     ret (js_or v (JStr DEFAULTS_0)))
    (fun _ => ret (JStr DEFAULTS_0)).

Definition setBaseUrl (url : JSVal) : M unit :=
  try_catch (wx_setStorageSync "BASE_URL" url) (fun _ => ret tt).

(** [first.includes(x)]: a string searches for the substring, an array for
    the element; nothing else has the method. *)
Definition call_includes (first : JSVal) (x : jsstring) : M bool :=
  match first with
  | JStr s => ret (includes x s)
  | JArr elems =>
      ret (existsb (fun v => match v with
                             | JStr t => jsstring_eqb t x
                             | _ => false
                             end) elems)
  | _ => throw TypeError
  end.

Definition withFallback {A} (requestFn : JSVal -> M A) : M A :=
  let! first := getStoredBaseUrl in
  let! local := call_includes first (js "127.0.0.1") in
  let alt := JStr (if local then DEFAULTS_1 else DEFAULTS_0) in
  try_catch (requestFn first)
    (fun _ =>
       (* try fallback once *)
       setBaseUrl alt >>
       requestFn alt).

(** What an attempt resolves with: [{ data, base }]. *)
Record Resolved := {
  res_data : JSVal;
  res_base : JSVal
}.

Definition http_message (statusCode : Z) (data : JSVal) : jsstring :=
  js "HTTP " ++ dec statusCode ++ js ": " ++
  match data with
  | JStr s => s
  | _ => match JSON_stringify data with
         | Some t => t
         | None => js "undefined"
         end
  end.

(** The [success] and [fail] callbacks of an attempt against [base]: what the
    attempt's promise settles with. *)
Definition settle (base : JSVal) (res : wx_response) : Result Resolved :=
  match res with
  | wx_success statusCode data =>
      if ((200 <=? statusCode) && (statusCode <? 300))%Z
      then Returns {| res_data := data; res_base := base |}
      else Throws (HttpError (http_message statusCode data))
  | wx_fail err => Throws (Rejected err)
  end.

Definition attempt (method : Method) (path : jsstring) (data : JSVal) (base : JSVal)
  : M Resolved :=
  let! res := wx_request {| url := ToString base ++ path; method := method; body := data |} in
  settled (settle base res).

Definition _wxRequest (method : Method) (path : jsstring) (data : JSVal) : M Resolved :=
  withFallback (attempt method path data).

Definition post (path : jsstring) (data : JSVal) : M JSVal :=
  let! res := _wxRequest POST path data in
  (* persist working base *)
  (if truthy (res_base res) then setBaseUrl (res_base res) else ret tt) >>
  ret (res_data res).

Definition get (path : jsstring) : M JSVal :=
  let! res := _wxRequest GET path JUndefined in
  (if truthy (res_base res) then setBaseUrl (res_base res) else ret tt) >>
  ret (res_data res).

Definition ping : M JSVal := get (js "/health").

(** ** [pages/home/home.js] *)

Definition stamp (item : JSVal) (now : Z) : JSVal :=
  JObj (set_prop (js "ts") (JNum now 0) (spread item)).

Definition _saveHistoryItem (item : JSVal) : M unit :=
  try_catch
    (let! stored := wx_getStorageSync "learning_history" in
     let list := js_or stored (JArr []) in
     let! now := Date_now in
     match list with
     | JArr l => wx_setStorageSync "learning_history" (JArr (take 200 (stamp item now :: l)))
     | _ => throw TypeError
     end)
    (fun _ => ret tt).

Definition learning_item (word topic level hint : jsstring) : JSVal :=
  JObj [(js "word", JStr word); (js "topic", JStr topic);
        (js "level", JStr level); (js "hint", JStr hint)].

Definition SUGGESTION_MESSAGE : jsstring :=
  js "Give me one daily vocabulary suggestion: pick a random topic and level, output as: word | topic | level | one-sentence hint.".

Definition DEFAULT_HINT : jsstring := js "Start learning now!".

(** [res && Array.isArray(res.learned) && res.learned.length > 0]: the first
    item and the others. *)
Definition learned_items (res : JSVal) : option (JSVal * list JSVal) :=
  if truthy res then nonempty_array (get_prop res (js "learned")) else None.

(** [(res && res.reply) ? String(res.reply) : dflt] *)
Definition reply_or (dflt : jsstring) (res : JSVal) : jsstring :=
  if truthy res && truthy (get_prop res (js "reply"))
  then ToString (get_prop res (js "reply")) else dflt.

(** The body of the suggestion request. *)
Definition suggestion_request (sessionId : JSVal) : JSVal :=
  JObj [(js "session_id", sessionId); (js "message", JStr SUGGESTION_MESSAGE)].

Definition show_and_save (item : JSVal) : M unit :=
  modify (with_suggestion item) >> _saveHistoryItem item.

(** Lines 36 to 66 of [fetchSuggestion]: what happens to the response when
    it carries no structured list. *)
Definition suggest_from_reply (res : JSVal) : M unit :=
  let text := reply_or [] res in
  let cleanText := trim (strip_learned text) in
  (* 2) Try to extract learned_json from reply text *)
  let! done :=
    match match_learned text with
    | Some (c :: g) =>
        try_catch
          (let! arr := JSON_parse_call (c :: g) in
           match nonempty_array arr with
           | Some (item, _) => show_and_save item >> ret true
           | None => ret false
           end)
          (fun _ => ret false)
    | _ => ret false
    end in
  if (done : bool) then ret tt else
  (* 3) Fallback: parse pipe-delimited "word | topic | level | hint" *)
  let parts := map trim (split 124 cleanText) in
  if (4 <=? length parts)%nat then
    show_and_save (learning_item (nth 0 parts []) (nth 1 parts []) (nth 2 parts [])
                                 (join (js " | ") (drop 3 parts)))
  else
    (* 4) Last resort *)
    modify (with_suggestion
              (learning_item (js "Word") (js "General") (js "All")
                 (str_or cleanText DEFAULT_HINT))) >>
    wx_showToast (js "Daily suggestion parse failed").

Definition fetchSuggestion (sessionId : JSVal) : M unit :=
  try_catch
    (let! res := post (js "/chat") (suggestion_request sessionId) in
     (* 1) Prefer structured payload from server *)
     match learned_items res with
     | Some (item, _) => show_and_save item
     | None => suggest_from_reply res
     end)
    (fun _ =>
       console_error (js "fetchSuggestion error") >>
       modify (with_suggestion
                 (learning_item (js "Word") (js "General") (js "All") DEFAULT_HINT))).

(** ** [pages/chat/chat.js] *)

Fixpoint stamp_all (items : list JSVal) : M (list JSVal) :=
  match items with
  | [] => ret []
  | it :: rest =>
      let! now := Date_now in
      let! rest' := stamp_all rest in
      ret (stamp it now :: rest')
  end.

(** The elements [a.concat(v)] adds: those of an array, or [v] itself. *)
Definition concat_arg (v : JSVal) : list JSVal :=
  match v with
  | JArr l => l
  | _ => [v]
  end.

Definition _saveHistory (items : list JSVal) : M unit :=
  try_catch
    (let! stored := wx_getStorageSync "learning_history" in
     let list := js_or stored (JArr []) in
     let! withTs := stamp_all items in
     wx_setStorageSync "learning_history" (JArr (take 200 (withTs ++ concat_arg list))))
    (fun _ => ret tt).

Definition addUser (t : jsstring) : M unit :=
  let! now := Date_now in
  modify (with_message {| msg_id := js "m" ++ dec now ++ js "u"; role := user; text := t |}).

Definition addBot (t : jsstring) : M unit :=
  let! now := Date_now in
  modify (with_message {| msg_id := js "m" ++ dec now ++ js "b"; role := bot; text := t |}).

(** The body of the chat request. *)
Definition chat_request (session message : jsstring) : JSVal :=
  JObj [(js "session_id", JStr session); (js "message", JStr message);
        (js "mode", JStr (js "chat"))].

Definition onSend : M unit := fun w =>
  let t := trim (inputText w) in
  match t with
  | [] => (Returns tt, w)
  | _ :: _ =>
      (addUser t >>
       modify (fun w => with_sending true (with_input [] w)) >>
       finally
         (try_catch
            (let! res := post (js "/chat") (chat_request (sessionId w) t) in
             let reply := reply_or (js "No reply") res in
             (* Hide the learned_json block from chat display, but still use it for history *)
             let cleaned := trim (strip_learned reply) in
             addBot cleaned >>
             match learned_items res with
             | Some (x, rest) => _saveHistory (x :: rest)
             | None => ret tt
             end)
            (fun _ =>
               console_error (js "chat error") >>
               let! base := getStoredBaseUrl in
               wx_showToast (js "Request failed (" ++ ToString base ++ js ")") >>
               addBot (js "Sorry, I had trouble reaching the server.")))
         (with_sending false)) w
  end.

(** ** [pages/history/history.js]

    [onClear] up to its call of [load], which reads the log again to render
    it and writes nothing. *)
Definition onClear : M unit :=
  try_catch (wx_setStorageSync "learning_history" (JArr [])) (fun _ => ret tt).

(** ** Worlds to run the program in *)

(** The page data before any call: the placeholder card of [home.js], no
    message, nothing stored. *)
Definition initial_world (e : Env) : World :=
  {| env := e; storage := ∅; storage_calls := 0; requests := 0; clock_reads := 0;
     trace := [];
     suggestion := learning_item [8230] [8212] [8212] (js "Fetching today's suggestion");
     messages := []; lastMessageId := []; inputText := []; sending := false;
     sessionId := js "1700000000000-424242" |}.

(** A storage that never throws, a server that answers every request with
    status 200 and the body [{ reply }], a clock that advances by one. *)
Definition replying (reply : jsstring) : Env :=
  {| storage_fault := fun _ => false;
     network := fun _ _ => wx_success 200 (JObj [(js "reply", JStr reply)]);
     clock := fun n => (1700000000000 + Z.of_nat n)%Z |}.

(** A literal in which ['] stands for the double quote. *)
Definition jsq (s : string) : jsstring :=
  map (fun c => if c =? 39 then 34 else c) (js s).

(** The text of the newest chat message. *)
Definition displayed (w : World) : option jsstring :=
  text <$> last (messages w).

(** * Notions used in the statements

    Summaries of what the calls above compute, the worlds the examples run
    in, and the predicates of the properties. *)

(** The endpoint the store currently yields. *)
Definition stored_base (w : World) : JSVal :=
  if storage_fault (env w) (storage_calls w) then JStr DEFAULTS_0
  else js_or (default (JStr []) (storage w !! "BASE_URL")) (JStr DEFAULTS_0).

(** What a best-effort write leaves in the store. *)
Definition written (key : string) (v : JSVal) (w : World) : World :=
  with_storage (if storage_fault (env w) (storage_calls w) then id else insert key v)
    (with_event (EvSetStorage key v) w).

(** The [alt] of [withFallback] for a string [first]. *)
Definition alternate (first : jsstring) : jsstring :=
  if includes (js "127.0.0.1") first then DEFAULTS_1 else DEFAULTS_0.

Definition request_to (method : Method) (path : jsstring) (data : JSVal)
    (base : jsstring) : Request :=
  {| url := base ++ path; method := method; body := data |}.

(** The world after the first attempt against [f], and after the switch and
    the retry against [alternate f]. *)
Definition after_first (w : World) (rq : jsstring -> Request) (f : jsstring) : World :=
  with_request (with_event (EvRequest (rq f)) (with_storage id w)).

Definition after_retry (w : World) (rq : jsstring -> Request) (f : jsstring) : World :=
  with_request
    (with_event (EvRequest (rq (alternate f)))
       (written "BASE_URL" (JStr (alternate f)) (after_first w rq f))).

(** What [post] and [get] add to [_wxRequest]. *)
Definition persisted (r : Result Resolved * World) : Result JSVal * World :=
  match r with
  | (Returns res, w') =>
      (Returns (res_data res),
       if truthy (res_base res) then written "BASE_URL" (res_base res) w' else w')
  | (Throws e, w') => (Throws e, w')
  end.

(** The two entry points of the executor: [post path data] sends a [POST]
    with the body, [get path] a [GET] without one. *)
Definition entry_point (run : M JSVal) (method : Method) (path : jsstring)
    (data : JSVal) : Prop :=
  (run = post path data /\ method = POST) \/
  (run = get path /\ method = GET /\ data = JUndefined).

(** A server that is down at both endpoints: the first request is refused,
    the second answered with status 503. *)
Definition both_down : Env :=
  {| storage_fault := fun _ => false;
     network := fun n _ => match n with
                           | O => wx_fail (JObj [(js "errMsg", JStr (js "request:fail"))])
                           | S _ => wx_success 503 (JStr (js "busy"))
                           end;
     clock := fun n => Z.of_nat n |}.

(** The first endpoint answers 500, the alternate answers 200 with a
    reply. *)
Definition primary_down : Env :=
  {| storage_fault := fun _ => false;
     network := fun n _ => match n with
                           | O => wx_success 500 (JObj [(js "detail", JStr (js "boom"))])
                           | S _ => wx_success 200 (JObj [(js "reply", JStr (js "hi"))])
                           end;
     clock := fun n => Z.of_nat n |}.

Definition in_pool (v : JSVal) : Prop := exists u, v = JStr u /\ u ∈ DEFAULTS.

(** Nothing is stored under [BASE_URL], or one of the two defaults is. *)
Definition pool_store (w : World) : Prop :=
  forall v, storage w !! "BASE_URL" = Some v -> in_pool v.

(** Every write to [BASE_URL] in a trace wrote one of the two defaults. *)
Definition pool_writes (t : list Event) : Prop :=
  forall v, EvSetStorage "BASE_URL" v ∈ t -> in_pool v.

Definition pool_inv (w : World) : Prop := pool_store w /\ pool_writes (trace w).

(** A session of the executor: any calls of [post] and [get], one after the
    other, whatever each of them returns. *)
Inductive Call :=
| CallPost (path : jsstring) (data : JSVal)
| CallGet (path : jsstring).

Definition run_call (c : Call) (w : World) : World :=
  match c with
  | CallPost path data => snd (post path data w)
  | CallGet path => snd (get path w)
  end.

Definition run_calls (cs : list Call) (w : World) : World :=
  fold_left (fun w c => run_call c w) cs w.

(** [wx.getStorageSync('learning_history') || []] *)
Definition history_value (w : World) : JSVal :=
  js_or (default (JStr []) (storage w !! "learning_history")) (JArr []).

(** The persisted log, when what is stored is a list (or nothing). *)
Definition history_log (w : World) : option (list JSVal) :=
  match history_value w with
  | JArr l => Some l
  | _ => None
  end.

(** The entries [items.map(it => ({ ...it, ts: Date.now() }))] makes when
    the clock has been read [n] times. *)
Fixpoint stamps (clk : nat -> Z) (n : nat) (items : list JSVal) : list JSVal :=
  match items with
  | [] => []
  | it :: rest => stamp it (clk n) :: stamps clk (S n) rest
  end.






Definition numbered_items (n : nat) : list JSVal :=
  map (fun i => JObj [(js "word", JStr (js "w" ++ dec (Z.of_nat i)))]) (seq 0 n).


(** The suggestion flow, then the chat flow: the first request is answered
    with a pipe-delimited reply, the second with a reply and a structured
    list whose item already carries a [ts]. *)
Definition two_flows : Env :=
  {| storage_fault := fun _ => false;
     network := fun n _ =>
       match n with
       | O => wx_success 200 (JObj [(js "reply", JStr (js "old | t | l | h"))])
       | S _ => wx_success 200
                  (JObj [(js "reply", JStr (js "ok"));
                         (js "learned",
                          JArr [JObj [(js "word", JStr (js "new")); (js "ts", JNum 5 0)]])])
       end;
     clock := fun n => (1700000000000 + Z.of_nat n)%Z |}.

Definition after_suggestion : World :=
  snd (fetchSuggestion (JStr (js "s")) (initial_world two_flows)).

Definition after_chat : World :=
  snd (onSend (with_input (js "hi") after_suggestion)).

Definition old_entry : JSVal :=
  JObj [(js "word", JStr (js "old")); (js "topic", JStr (js "t"));
        (js "level", JStr (js "l")); (js "hint", JStr (js "h"));
        (js "ts", JNum 1700000000000 0)].

Definition new_entry : JSVal :=
  JObj [(js "word", JStr (js "new")); (js "ts", JNum 1700000000003 0)].

Definition stamped_item : JSVal :=
  JObj [(js "word", JStr (js "cat")); (js "ts", JNum 5 0)].

(** The item the second strategy extracts: the first element of the list
    that the group of the leftmost tagged block parses to. *)
Definition tagged_item (text : jsstring) : option JSVal :=
  match match_learned text with
  | Some (c :: g) =>
      match JSON_parse (c :: g) with
      | Some arr => option_map fst (nonempty_array arr)
      | None => None
      end
  | _ => None
  end.

(** The trimmed segments of the reply without its tagged blocks. *)
Definition pipe_parts (text : jsstring) : list jsstring :=
  map trim (split 124 (trim (strip_learned text))).

Definition pipe_item (text : jsstring) : JSVal :=
  learning_item (nth 0 (pipe_parts text) []) (nth 1 (pipe_parts text) [])
                (nth 2 (pipe_parts text) []) (join (js " | ") (drop 3 (pipe_parts text))).

Definition fallback_item (text : jsstring) : JSVal :=
  learning_item (js "Word") (js "General") (js "All")
    (str_or (trim (strip_learned text)) DEFAULT_HINT).

Definition PARSE_FAILED : jsstring := js "Daily suggestion parse failed".

(** The world the error branch of [fetchSuggestion] leaves. *)
Definition gave_up (w : World) : World :=
  with_suggestion (learning_item (js "Word") (js "General") (js "All") DEFAULT_HINT)
    (with_event (EvConsoleError (js "fetchSuggestion error")) w).



(** The world in which [onSend] calls [post]: the user's message added, the
    input emptied, [sending] set. *)
Definition sending_world (w : World) (t : jsstring) : World :=
  with_sending true (with_input [] (snd (addUser t w))).


(** A parser that consumes at least one code unit. *)
Definition consuming (pv : jsstring -> option (JSVal * jsstring)) : Prop :=
  forall s v r, pv s = Some (v, r) -> (length r < length s)%nat.

(** Case analysis on every [match] of a hypothesis, innermost first. *)
Ltac break_match_in H :=
  repeat (cbv beta iota zeta in H;
          first [ discriminate H
                | match type of H with
                  | context [match ?x with _ => _ end] =>
                      lazymatch x with
                      | context [match _ with _ => _ end] => fail
                      | _ => destruct x eqn:?
                      end
                  end ]).

(** * The rest of the pages, and what the further properties speak of *)

(** ** What a call leaves alone *)

(** The page data of the two pages. *)
Definition same_page (w w' : World) : Prop :=
  suggestion w' = suggestion w /\ messages w' = messages w /\
  lastMessageId w' = lastMessageId w /\ inputText w' = inputText w /\
  sending w' = sending w /\ sessionId w' = sessionId w.

(** Events of the executor: a request, or a write to [BASE_URL]. *)
Definition executor_event (ev : Event) : Prop :=
  (exists r, ev = EvRequest r) \/ (exists v, ev = EvSetStorage "BASE_URL" v).

(** [w'] comes from [w] by [nr] requests and [nc] storage calls that wrote
    to [BASE_URL] at most: same oracles, clock and page data, the other
    stored keys untouched. *)
Definition executor_frame (nr nc : nat) (w w' : World) : Prop :=
  env w' = env w /\ clock_reads w' = clock_reads w /\ same_page w w' /\
  requests w' = (nr + requests w)%nat /\
  storage_calls w' = (nc + storage_calls w)%nat /\
  (forall k, k <> "BASE_URL" -> storage w' !! k = storage w !! k) /\
  (exists evs, trace w' = trace w ++ evs /\ Forall executor_event evs).

(** [w'] comes from [w] by steps that wrote to the stored [keys] at most:
    same oracles, every other key untouched, and the trace grown by events
    whose writes are to [keys]. *)
Definition confined (keys : list string) (w w' : World) : Prop :=
  env w' = env w /\
  (forall k, k ∉ keys -> storage w' !! k = storage w !! k) /\
  (exists evs, trace w' = trace w ++ evs /\
               forall k v, EvSetStorage k v ∈ evs -> k ∈ keys).


Definition APOLOGY : jsstring := js "Sorry, I had trouble reaching the server.".

(** An entry that carries a numeric [ts]. *)
Definition has_ts (v : JSVal) : Prop :=
  exists props n, v = JObj props /\ lookup_prop (js "ts") props = JNum n 0.

(** The log is a list (or nothing) of at most 200 entries, each of which
    carries a [ts]: what [history.js] expects to read. *)
Definition history_ok (w : World) : Prop :=
  exists l, history_log w = Some l /\ (length l <= 200)%nat /\ Forall has_ts l.


(** The world the [catch] handler of [onSend] leaves: the error logged, the
    endpoint read again for the toast, the apology added. *)
Definition send_failed (w1 : World) : World :=
  snd (addBot APOLOGY
         (with_event
            (EvToast (js "Request failed (" ++
                      ToString (stored_base (with_event (EvConsoleError (js "chat error")) w1))
                      ++ js ")"))
            (with_storage id (with_event (EvConsoleError (js "chat error")) w1)))).

(** The world the [then] handler of [onSend] leaves. *)
Definition send_answered (res : JSVal) (w1 : World) : World :=
  let w2 := snd (addBot (trim (strip_learned (reply_or (js "No reply") res))) w1) in
  match learned_items res with
  | Some (x, rest) => snd (_saveHistory (x :: rest) w2)
  | None => w2
  end.



(** ** Sessions

    [onLoad] of [home.js]; [_genSessionId], [_short], [onNewSession] and
    [onClearMemory] of [chat.js]. The draw
    [Math.floor(Math.random() * 1e6)], an integer from 0 to 999999, is a
    parameter of the calls that make it. *)

(** [`${Date.now()}-${Math.floor(Math.random() * 1e6)}`] *)
Definition _genSessionId (draw : Z) : M jsstring :=
  let! now := Date_now in
  ret (dec now ++ 45 :: dec draw).

(** [_short(id)] on a string: the segment after the first hyphen when it is
    not empty, else the last six code units. *)
Definition _short (id : jsstring) : jsstring :=
  match id with
  | [] => []
  | _ :: _ =>
      match split 45 id with
      | _ :: (c :: p) :: _ => c :: p
      | _ => drop (length id - 6) id
      end
  end.

Module Home.

(** The storage calls of [onLoad] are not guarded: when one throws, [onLoad]
    throws and no suggestion is fetched. *)
Definition onLoad (draw : Z) : M unit :=
  (* Create or reuse session id *)
  let! stored := wx_getStorageSync "session_id" in
  let! sessionId :=
    (if truthy stored then ret stored
     else
       let! now := Date_now in
       let sessionId := JStr (dec now ++ 45 :: dec draw) in
       wx_setStorageSync "session_id" sessionId >> ret sessionId) in
  fetchSuggestion sessionId.

End Home.

(** The chat page: the data the send flow works on, and the two fields it
    never touches. *)
Record ChatPage := {
  data : World;
  clearing : bool;
  sessionShort : jsstring
}.

Definition with_no_messages (w : World) : World :=
  {| env := env w; storage := storage w; storage_calls := storage_calls w;
     requests := requests w; clock_reads := clock_reads w; trace := trace w;
     suggestion := suggestion w; messages := [];
     lastMessageId := lastMessageId w; inputText := inputText w;
     sending := sending w; sessionId := sessionId w |}.

Definition with_session (id : jsstring) (w : World) : World :=
  {| env := env w; storage := storage w; storage_calls := storage_calls w;
     requests := requests w; clock_reads := clock_reads w; trace := trace w;
     suggestion := suggestion w; messages := messages w;
     lastMessageId := lastMessageId w; inputText := inputText w;
     sending := sending w; sessionId := id |}.

(** The body of the reset request. *)
Definition reset_request (session : jsstring) : JSVal :=
  JObj [(js "session_id", JStr session)].

(** [onClearMemory], run to the end of its promise chain: [clearing] is
    [true] while the request is out and [false] once it has settled. *)
Definition onClearMemory (p : ChatPage) : ChatPage :=
  match sessionId (data p) with
  | [] => p
  | _ :: _ =>
      {| data :=
           snd (try_catch
                  (post (js "/reset") (reset_request (sessionId (data p))) >>
                   modify with_no_messages)
                  (fun _ =>
                     console_error (js "reset error") >>
                     let! base := getStoredBaseUrl in
                     wx_showToast (js "Reset failed (" ++ ToString base ++ js ")"))
                  (data p));
         clearing := false;
         sessionShort := sessionShort p |}
  end.

(** The write of [onNewSession] is not guarded: when it throws, the page
    keeps its session and its messages. *)
Definition onNewSession (draw : Z) (p : ChatPage) : Result unit * ChatPage :=
  match (let! newId := _genSessionId draw in
         wx_setStorageSync "session_id" (JStr newId) >> ret newId) (data p) with
  | (Returns newId, w1) =>
      (Returns tt,
       {| data := with_session newId (with_no_messages w1);
          clearing := clearing p;
          sessionShort := _short newId |})
  | (Throws e, w1) =>
      (Throws e, {| data := w1; clearing := clearing p; sessionShort := sessionShort p |})
  end.

(** [w'] comes from [w] by steps whose events all satisfy [P]. *)
Definition grows (P : Event -> Prop) (w w' : World) : Prop :=
  exists evs, trace w' = trace w ++ evs /\ Forall P evs.

(** An event that, if it is a request, carries the body [d]. *)
Definition carrying (d : JSVal) (ev : Event) : Prop :=
  forall r, ev = EvRequest r -> body r = d.

(** The session id the store holds. *)
Definition stored_session (w : World) : JSVal :=
  default (JStr []) (storage w !! "session_id").

(** * Properties *)

(** ** Running the storage calls *)

Lemma getStoredBaseUrl_run (w : World) :
  getStoredBaseUrl w = (Returns (stored_base w), with_storage id w).
Proof.
  unfold getStoredBaseUrl, stored_base, try_catch, bind, wx_getStorageSync.
  destruct (storage_fault (env w) (storage_calls w)); reflexivity.
Qed.

Lemma setBaseUrl_run (url : JSVal) (w : World) :
  setBaseUrl url w = (Returns tt, written "BASE_URL" url w).
Proof.
  unfold setBaseUrl, written, try_catch, wx_setStorageSync.
  destruct (storage_fault (env w) (storage_calls w)); reflexivity.
Qed.

Lemma written_lookup (key : string) (v : JSVal) (w : World) :
  storage_fault (env w) (storage_calls w) = false ->
  storage (written key v w) !! key = Some v.
Proof.
  intros H. unfold written. rewrite H. simpl. apply lookup_insert_eq.
Qed.

(** ** The alternate endpoint *)

Lemma alternate_in_pool (f : jsstring) : alternate f ∈ DEFAULTS.
Proof.
  unfold alternate, DEFAULTS_0, DEFAULTS_1, DEFAULTS.
  destruct (includes _ f); simpl; set_solver.
Qed.

Lemma alternate_differs (f : jsstring) : alternate f <> f.
Proof.
  unfold alternate. destruct (includes (js "127.0.0.1") f) eqn:E; intros <-;
    vm_compute in E; discriminate.
Qed.

Lemma alternate_swaps :
  alternate DEFAULTS_0 = DEFAULTS_1 /\ alternate DEFAULTS_1 = DEFAULTS_0.
Proof. split; reflexivity. Qed.

(** ** Running the executor on a string endpoint *)

Lemma wxRequest_first (w : World) method path data (f : jsstring) (r : Resolved) :
  stored_base w = JStr f ->
  settle (JStr f) (network (env w) (requests w) (request_to method path data f)) = Returns r ->
  _wxRequest method path data w = (Returns r, after_first w (request_to method path data) f).
Proof.
  intros Hf Hs.
  unfold _wxRequest, withFallback, bind. rewrite getStoredBaseUrl_run, Hf.
  unfold call_includes, ret, try_catch, attempt, bind, wx_request, settled.
  cbn [ToString env with_storage requests]. fold (request_to method path data f).
  rewrite Hs. reflexivity.
Qed.

Lemma wxRequest_retry (w : World) method path data (f : jsstring) (e1 : Exn) :
  stored_base w = JStr f ->
  settle (JStr f) (network (env w) (requests w) (request_to method path data f)) = Throws e1 ->
  _wxRequest method path data w =
    (settle (JStr (alternate f))
       (network (env w) (S (requests w)) (request_to method path data (alternate f))),
     after_retry w (request_to method path data) f).
Proof.
  intros Hf Hs.
  unfold _wxRequest, withFallback, bind. rewrite getStoredBaseUrl_run, Hf.
  unfold call_includes, ret, try_catch, attempt, bind, wx_request, settled.
  cbn [ToString env with_storage requests]. fold (request_to method path data f).
  rewrite Hs. fold (alternate f). rewrite setBaseUrl_run.
  cbn [ToString]. fold (request_to method path data (alternate f)).
  reflexivity.
Qed.

Lemma settle_base (base : JSVal) (res : wx_response) (r : Resolved) :
  settle base res = Returns r -> res_base r = base.
Proof.
  destruct res as [sc d|err]; simpl; [|discriminate].
  destruct ((200 <=? sc)%Z && (sc <? 300)%Z); [|discriminate].
  intros [= <-]. reflexivity.
Qed.

Lemma post_run (path : jsstring) (data : JSVal) (w : World) :
  post path data w = persisted (_wxRequest POST path data w).
Proof.
  unfold post, bind, persisted.
  destruct (_wxRequest POST path data w) as [[res|e] w']; [|reflexivity].
  destruct (truthy (res_base res)); [rewrite setBaseUrl_run|]; reflexivity.
Qed.

Lemma get_run (path : jsstring) (w : World) :
  get path w = persisted (_wxRequest GET path JUndefined w).
Proof.
  unfold get, bind, persisted.
  destruct (_wxRequest GET path JUndefined w) as [[res|e] w']; [|reflexivity].
  destruct (truthy (res_base res)); [rewrite setBaseUrl_run|]; reflexivity.
Qed.

Lemma entry_point_run (run : M JSVal) method path data (w : World) :
  entry_point run method path data ->
  run w = persisted (_wxRequest method path data w).
Proof.
  intros [[-> ->]|(-> & -> & ->)]; [apply post_run|apply get_run].
Qed.

Lemma stored_base_of_read (w : World) (v : JSVal) :
  fst (getStoredBaseUrl w) = Returns v -> stored_base w = v.
Proof. rewrite getStoredBaseUrl_run. simpl. congruence. Qed.

Lemma stored_base_truthy (w : World) : truthy (stored_base w) = true.
Proof.
  unfold stored_base, js_or.
  destruct (storage_fault _ _); [reflexivity|].
  destruct (truthy (default (JStr []) (storage w !! "BASE_URL"))) eqn:E;
    [exact E|reflexivity].
Qed.

Lemma alternate_truthy (f : jsstring) : truthy (JStr (alternate f)) = true.
Proof. unfold alternate. destruct (includes _ f); reflexivity. Qed.

(** C1. When the first attempt, against the endpoint [f] read from the
    store, fails (transport failure or a status outside 200..299), the
    executor writes the other member of the pool to the store and then sends
    exactly one more request, to that endpoint; the retry's outcome is the
    outcome of [_wxRequest]; when the retry fails as well, [post] and [get]
    fail with the retry's error whatever the first error was, having made no
    further request or write, and the store, where it accepted the write,
    holds the alternate. *)
Theorem failed_attempt_switches_then_retries_once
    (w : World) (run : M JSVal) (method : Method) (path : jsstring) (data : JSVal)
    (f : jsstring) (e1 : Exn) :
  entry_point run method path data ->
  fst (getStoredBaseUrl w) = Returns (JStr f) ->
  settle (JStr f) (network (env w) (requests w) (request_to method path data f))
    = Throws e1 ->
  let alt := alternate f in
  let retry := settle (JStr alt)
                 (network (env w) (S (requests w)) (request_to method path data alt)) in
  let w' := snd (_wxRequest method path data w) in
  (alt ∈ DEFAULTS /\ alt <> f /\
   (f = DEFAULTS_0 -> alt = DEFAULTS_1) /\ (f = DEFAULTS_1 -> alt = DEFAULTS_0)) /\
  fst (_wxRequest method path data w) = retry /\
  trace w' = trace w ++ [EvRequest (request_to method path data f);
                         EvSetStorage "BASE_URL" (JStr alt);
                         EvRequest (request_to method path data alt)] /\
  requests w' = S (S (requests w)) /\
  (storage_fault (env w) (S (storage_calls w)) = false ->
   storage w' !! "BASE_URL" = Some (JStr alt)) /\
  (forall e2, retry = Throws e2 -> run w = (Throws e2, w')).
Proof.
  intros Hrun Hread Hfail alt retry w'.
  apply stored_base_of_read in Hread.
  pose proof (wxRequest_retry w method path data f e1 Hread Hfail) as Hreq.
  fold alt in Hreq. fold retry in Hreq.
  assert (Hw' : w' = after_retry w (request_to method path data) f)
    by (unfold w'; rewrite Hreq; reflexivity).
  split; [|split; [|split; [|split; [|split]]]].
  - split; [apply alternate_in_pool|]. split; [apply alternate_differs|].
    split; intros ->; reflexivity.
  - rewrite Hreq. reflexivity.
  - rewrite Hw'. unfold after_retry, after_first, written. cbn [trace with_request with_event with_storage].
    rewrite <- !app_assoc. reflexivity.
  - rewrite Hw'. reflexivity.
  - intros Hok. rewrite Hw'. unfold after_retry, after_first, written.
    cbn [storage with_request with_event with_storage env storage_calls].
    rewrite Hok. apply lookup_insert_eq.
  - intros e2 He2. rewrite (entry_point_run run method path data w Hrun).
    rewrite Hreq, He2. unfold persisted. rewrite Hw'. reflexivity.
Qed.

Lemma failed_attempt_switches_then_retries_once_witness :
  post (js "/chat") JNull (initial_world both_down)
  = (Throws (HttpError (js "HTTP 503: busy")),
     snd (_wxRequest POST (js "/chat") JNull (initial_world both_down))).
Proof.
  apply (failed_attempt_switches_then_retries_once
           (initial_world both_down) (post (js "/chat") JNull) POST (js "/chat") JNull
           DEFAULTS_0 (Rejected (JObj [(js "errMsg", JStr (js "request:fail"))]))).
  - left. split; reflexivity.
  - reflexivity.
  - reflexivity.
  - reflexivity.
Defined.

Lemma settle_success (base : JSVal) (sc : Z) (d : JSVal) :
  settle base (wx_success sc d) =
    if decide (200 <= sc < 300)%Z
    then Returns {| res_data := d; res_base := base |}
    else Throws (HttpError
                   (js "HTTP " ++ dec sc ++ js ": " ++
                    match d with
                    | JStr s => s
                    | _ => default (js "undefined") (JSON_stringify d)
                    end)).
Proof.
  unfold settle, http_message.
  destruct (decide (200 <= sc < 300)%Z) as [H|H].
  - replace ((200 <=? sc)%Z && (sc <? 300)%Z) with true; [reflexivity|].
    symmetry. apply andb_true_iff. split; [apply Z.leb_le|apply Z.ltb_lt]; lia.
  - replace ((200 <=? sc)%Z && (sc <? 300)%Z) with false.
    + destruct d; reflexivity.
    + symmetry. apply andb_false_iff.
      destruct (Z.leb_spec 200 sc); [right; apply Z.ltb_ge; lia|left; reflexivity].
Qed.

(** C2. An attempt that gets a response succeeds exactly when the status is
    in 200..299; any other status rejects with the message
    [HTTP <status>: <body>], the body as it is when it is a string and its
    [JSON.stringify] otherwise; a transport failure rejects too. When the
    first attempt succeeds, [post] and [get] write the endpoint read from the
    store back to it and return the response body; when the first attempt
    fails and the retry succeeds, they write the alternate (a second time)
    and return the body the alternate answered with; the store, where it
    accepted the write, holds the endpoint that succeeded. *)
Theorem success_is_2xx_and_persists_the_endpoint
    (w : World) (run : M JSVal) (method : Method) (path : jsstring) (data : JSVal)
    (f : jsstring) :
  entry_point run method path data ->
  fst (getStoredBaseUrl w) = Returns (JStr f) ->
  let alt := alternate f in
  let first := network (env w) (requests w) (request_to method path data f) in
  let second := network (env w) (S (requests w)) (request_to method path data alt) in
  (forall base sc d,
     settle base (wx_success sc d) =
       if decide (200 <= sc < 300)%Z
       then Returns {| res_data := d; res_base := base |}
       else Throws (HttpError
                      (js "HTTP " ++ dec sc ++ js ": " ++
                       match d with
                       | JStr s => s
                       | _ => default (js "undefined") (JSON_stringify d)
                       end))) /\
  (forall base err, settle base (wx_fail err) = Throws (Rejected err)) /\
  (forall sc d,
     first = wx_success sc d -> (200 <= sc < 300)%Z ->
     fst (run w) = Returns d /\
     trace (snd (run w)) = trace w ++ [EvRequest (request_to method path data f);
                                       EvSetStorage "BASE_URL" (JStr f)] /\
     (storage_fault (env w) (S (storage_calls w)) = false ->
      storage (snd (run w)) !! "BASE_URL" = Some (JStr f))) /\
  (forall e1 sc d,
     settle (JStr f) first = Throws e1 ->
     second = wx_success sc d -> (200 <= sc < 300)%Z ->
     fst (run w) = Returns d /\
     trace (snd (run w)) = trace w ++ [EvRequest (request_to method path data f);
                                       EvSetStorage "BASE_URL" (JStr alt);
                                       EvRequest (request_to method path data alt);
                                       EvSetStorage "BASE_URL" (JStr alt)] /\
     (storage_fault (env w) (S (storage_calls w)) = false \/
      storage_fault (env w) (S (S (storage_calls w))) = false ->
      storage (snd (run w)) !! "BASE_URL" = Some (JStr alt))).
Proof.
  intros Hrun Hread alt first second.
  apply stored_base_of_read in Hread.
  assert (Hf : truthy (JStr f) = true) by (rewrite <- Hread; apply stored_base_truthy).
  split; [apply settle_success|]. split; [reflexivity|]. split.
  - intros sc d Hfirst Hsc.
    assert (Hs : settle (JStr f) first = Returns {| res_data := d; res_base := JStr f |}).
    { rewrite Hfirst, settle_success. destruct (decide _); [reflexivity|contradiction]. }
    rewrite (entry_point_run run method path data w Hrun).
    rewrite (wxRequest_first w method path data f _ Hread Hs).
    unfold persisted. cbn [res_base res_data]. rewrite Hf. cbn [fst snd].
    split; [reflexivity|]. split.
    + unfold written, after_first. cbn [trace with_request with_event with_storage].
      rewrite <- !app_assoc. reflexivity.
    + intros Hok. apply written_lookup. exact Hok.
  - intros e1 sc d Hfail Hsecond Hsc.
    assert (Hs : settle (JStr alt) second = Returns {| res_data := d; res_base := JStr alt |}).
    { rewrite Hsecond, settle_success. destruct (decide _); [reflexivity|contradiction]. }
    rewrite (entry_point_run run method path data w Hrun).
    rewrite (wxRequest_retry w method path data f e1 Hread Hfail).
    fold alt. fold second. rewrite Hs.
    pose proof (alternate_truthy f) as Halt. fold alt in Halt.
    unfold persisted. cbn [res_base res_data]. rewrite Halt. cbn [fst snd].
    split; [reflexivity|]. split.
    + unfold written, after_retry, after_first, written.
      cbn [trace with_request with_event with_storage].
      rewrite <- !app_assoc. reflexivity.
    + intros Hok. unfold written at 1.
      cbn [storage with_request with_event with_storage env storage_calls after_retry after_first written].
      destruct (storage_fault (env w) (S (S (storage_calls w)))) eqn:E2.
      * destruct Hok as [Hok|Hok]; [|discriminate]. rewrite Hok.
        cbn [id]. apply lookup_insert_eq.
      * apply lookup_insert_eq.
Qed.

Lemma success_is_2xx_and_persists_the_endpoint_witness :
  fst (post (js "/chat") JNull (initial_world primary_down))
    = Returns (JObj [(js "reply", JStr (js "hi"))]) /\
  storage (snd (post (js "/chat") JNull (initial_world primary_down))) !! "BASE_URL"
    = Some (JStr DEFAULTS_1).
Proof.
  destruct (success_is_2xx_and_persists_the_endpoint
              (initial_world primary_down) (post (js "/chat") JNull) POST (js "/chat")
              JNull DEFAULTS_0 (or_introl (conj eq_refl eq_refl)) eq_refl)
    as (_ & _ & _ & Hretry).
  destruct (Hretry (HttpError (jsq "HTTP 500: {'detail':'boom'}")) 200%Z
              (JObj [(js "reply", JStr (js "hi"))]) eq_refl eq_refl)
    as (Hres & _ & Hstore); [lia|].
  split; [exact Hres|]. apply Hstore. left. reflexivity.
Defined.

(** ** The endpoint store stays within the pool *)

Lemma pool_inv_read (w : World) : pool_inv w -> pool_inv (with_storage id w).
Proof. intros H. exact H. Qed.

Lemma pool_inv_request (w : World) (r : Request) :
  pool_inv w -> pool_inv (with_request (with_event (EvRequest r) w)).
Proof.
  intros [Hs Ht]. split; [exact Hs|].
  intros v Hv. cbn [trace with_request with_event] in Hv.
  apply elem_of_app in Hv as [Hv|Hv]; [exact (Ht v Hv)|].
  apply list_elem_of_singleton in Hv. discriminate.
Qed.

Lemma pool_inv_written (w : World) (v : JSVal) :
  in_pool v -> pool_inv w -> pool_inv (written "BASE_URL" v w).
Proof.
  intros Hv [Hs Ht]. split.
  - intros v' Hv'. unfold written in Hv'.
    cbn [storage with_storage with_event] in Hv'.
    destruct (storage_fault (env w) (storage_calls w)); [exact (Hs v' Hv')|].
    rewrite lookup_insert_eq in Hv'. congruence.
  - intros v' Hv'. unfold written in Hv'. cbn [trace with_storage with_event] in Hv'.
    apply elem_of_app in Hv' as [Hv'|Hv']; [exact (Ht v' Hv')|].
    apply list_elem_of_singleton in Hv'. congruence.
Qed.

Lemma in_pool_alternate (f : jsstring) : in_pool (JStr (alternate f)).
Proof. exists (alternate f). split; [reflexivity|apply alternate_in_pool]. Qed.

Lemma in_pool_default : in_pool (JStr DEFAULTS_0).
Proof. exists DEFAULTS_0. split; [reflexivity|]. unfold DEFAULTS_0, DEFAULTS. simpl. set_solver. Qed.

Lemma in_pool_truthy (v : JSVal) : in_pool v -> truthy v = true.
Proof.
  intros (u & -> & Hu). unfold DEFAULTS in Hu.
  apply elem_of_cons in Hu as [->|Hu]; [reflexivity|].
  apply list_elem_of_singleton in Hu as ->. reflexivity.
Qed.

Lemma pool_store_stored_base (w : World) : pool_store w -> in_pool (stored_base w).
Proof.
  intros Hs. unfold stored_base.
  destruct (storage_fault _ _); [apply in_pool_default|].
  destruct (storage w !! "BASE_URL") as [v|] eqn:E; [|apply in_pool_default].
  unfold js_or, default. cbn [from_option id].
  rewrite (in_pool_truthy v (Hs v E)). exact (Hs v E).
Qed.

(** The world [_wxRequest] leaves is one of two, by the first outcome. *)
Lemma wxRequest_world (w : World) method path data (f : jsstring) :
  stored_base w = JStr f ->
  (exists r, _wxRequest method path data w
             = (Returns r, after_first w (request_to method path data) f)
             /\ res_base r = JStr f) \/
  (exists o, _wxRequest method path data w
             = (o, after_retry w (request_to method path data) f)
             /\ forall r, o = Returns r -> res_base r = JStr (alternate f)).
Proof.
  intros Hf.
  destruct (settle (JStr f) (network (env w) (requests w) (request_to method path data f)))
    as [r|e1] eqn:Hs.
  - left. exists r. split; [apply wxRequest_first; assumption|].
    exact (settle_base _ _ _ Hs).
  - right. eexists. split; [eapply wxRequest_retry; eassumption|].
    intros r Hr. exact (settle_base _ _ _ Hr).
Qed.

Lemma pool_inv_entry_point (w : World) (run : M JSVal) method path data :
  entry_point run method path data -> pool_inv w -> pool_inv (snd (run w)).
Proof.
  intros Hrun Hinv.
  destruct (pool_store_stored_base w (proj1 Hinv)) as (f & Hf & Hpool).
  rewrite (entry_point_run run method path data w Hrun).
  assert (Hfirst : pool_inv (after_first w (request_to method path data) f))
    by (apply pool_inv_request, pool_inv_read, Hinv).
  assert (Hretry : pool_inv (after_retry w (request_to method path data) f))
    by (apply pool_inv_request, pool_inv_written; [apply in_pool_alternate|exact Hfirst]).
  destruct (wxRequest_world w method path data f Hf) as [(r & -> & Hb)|(o & -> & Hb)].
  - unfold persisted. rewrite Hb.
    rewrite (in_pool_truthy (JStr f)) by (exists f; split; [reflexivity|exact Hpool]).
    cbn [snd]. apply pool_inv_written; [exists f; split; [reflexivity|exact Hpool]|exact Hfirst].
  - destruct o as [r|e]; unfold persisted; cbn [snd]; [|exact Hretry].
    rewrite (Hb r eq_refl), alternate_truthy.
    apply pool_inv_written; [apply in_pool_alternate|exact Hretry].
Qed.

(** C9. From a store that holds nothing or one of the two defaults under
    [BASE_URL], and whatever the network, the storage faults and the calls
    of [post] and [get] made, the executor only ever writes one of the two
    defaults to the store (the optimistic switch and the write on success
    alike), so the store keeps holding nothing or one of the two, and the
    endpoint read from it is one of the two. *)
Theorem executor_keeps_endpoint_in_pool (w : World) (cs : list Call) :
  pool_store w ->
  pool_writes (trace w) ->
  pool_store (run_calls cs w) /\
  pool_writes (trace (run_calls cs w)) /\
  (exists u, fst (getStoredBaseUrl (run_calls cs w)) = Returns (JStr u) /\ u ∈ DEFAULTS).
Proof.
  intros Hs Ht.
  assert (Hinv : pool_inv (run_calls cs w)).
  { assert (H0 : pool_inv w) by (split; assumption). clear Hs Ht.
    revert w H0. unfold run_calls.
    induction cs as [|c cs IH]; intros w H0; [exact H0|].
    cbn [fold_left]. apply IH.
    destruct c as [path data|path]; cbn [run_call].
    - apply (pool_inv_entry_point w (post path data) POST path data); [|exact H0].
      left. split; reflexivity.
    - apply (pool_inv_entry_point w (get path) GET path JUndefined); [|exact H0].
      right. repeat split; reflexivity. }
  split; [exact (proj1 Hinv)|]. split; [exact (proj2 Hinv)|].
  rewrite getStoredBaseUrl_run. cbn [fst].
  destruct (pool_store_stored_base _ (proj1 Hinv)) as (u & -> & Hu).
  exists u. split; [reflexivity|exact Hu].
Qed.

Lemma executor_keeps_endpoint_in_pool_witness :
  pool_store (run_calls [CallGet (js "/health"); CallPost (js "/chat") JNull]
                (initial_world primary_down)).
Proof.
  apply (executor_keeps_endpoint_in_pool (initial_world primary_down)
           [CallGet (js "/health"); CallPost (js "/chat") JNull]).
  - intros v Hv. vm_compute in Hv. discriminate.
  - intros v Hv. cbn [trace initial_world] in Hv. inversion Hv.
Defined.

(** C10. When the read of [BASE_URL] throws, when nothing is stored under
    it, and when what is stored is any falsy value (the empty string among
    them), [getStoredBaseUrl] returns the first default; the executor then
    sends its first request to the first default and, if it sends a second
    one, sends it to the second default, so the stored value reaches no
    request. *)
Theorem falsy_stored_endpoint_reads_as_first_default (w : World) (v : JSVal) :
  storage_fault (env w) (storage_calls w) = true \/
  storage w !! "BASE_URL" = None \/
  (storage w !! "BASE_URL" = Some v /\ truthy v = false) ->
  fst (getStoredBaseUrl w) = Returns (JStr DEFAULTS_0) /\
  forall method path data,
    let w' := snd (_wxRequest method path data w) in
    trace w' = trace w ++ [EvRequest (request_to method path data DEFAULTS_0)] \/
    trace w' = trace w ++ [EvRequest (request_to method path data DEFAULTS_0);
                           EvSetStorage "BASE_URL" (JStr DEFAULTS_1);
                           EvRequest (request_to method path data DEFAULTS_1)].
Proof.
  intros H.
  assert (Hbase : stored_base w = JStr DEFAULTS_0).
  { unfold stored_base, js_or, default.
    destruct H as [->|[H|[H Hv]]]; [reflexivity| |];
      destruct (storage_fault _ _); try reflexivity; rewrite H; cbn [from_option id].
    - reflexivity.
    - rewrite Hv. reflexivity. }
  split; [rewrite getStoredBaseUrl_run, Hbase; reflexivity|].
  intros method path data w'. unfold w'.
  destruct (wxRequest_world w method path data DEFAULTS_0 Hbase)
    as [(r & -> & _)|(o & -> & _)]; [left|right]; cbn [snd].
  - unfold after_first. cbn [trace with_request with_event with_storage]. reflexivity.
  - unfold after_retry, after_first, written.
    cbn [trace with_request with_event with_storage].
    rewrite <- !app_assoc. reflexivity.
Qed.

(** The empty string under [BASE_URL]: what [setBaseUrl('')] leaves. *)
Lemma falsy_stored_endpoint_reads_as_first_default_witness :
  let w := snd (setBaseUrl (JStr []) (initial_world primary_down)) in
  storage w !! "BASE_URL" = Some (JStr []) /\
  fst (getStoredBaseUrl w) = Returns (JStr DEFAULTS_0).
Proof.
  split; [reflexivity|].
  apply (falsy_stored_endpoint_reads_as_first_default
           (snd (setBaseUrl (JStr []) (initial_world primary_down))) (JStr [])).
  right. right. split; reflexivity.
Defined.

(** ** Running the history store *)

Lemma stamp_all_run (items : list JSVal) (w : World) :
  stamp_all items w =
    (Returns (stamps (clock (env w)) (clock_reads w) items),
     Nat.iter (length items) with_clock_read w).
Proof.
  revert w. induction items as [|it rest IH]; intros w; [reflexivity|].
  cbn [stamp_all stamps length]. unfold bind at 1, Date_now at 1.
  unfold bind at 1. rewrite IH. unfold ret.
  rewrite Nat.iter_succ_r. reflexivity.
Qed.

Lemma clock_reads_frame (n : nat) (w : World) :
  let w' := Nat.iter n with_clock_read w in
  env w' = env w /\ storage w' = storage w /\ storage_calls w' = storage_calls w /\
  trace w' = trace w /\ suggestion w' = suggestion w /\
  clock_reads w' = (n + clock_reads w)%nat.
Proof.
  induction n as [|n IH]; [repeat split|].
  intros w'. unfold w'. rewrite Nat.iter_succ. destruct IH as (? & ? & ? & ? & ? & ?).
  cbn [env storage storage_calls trace suggestion clock_reads with_clock_read].
  repeat split; try assumption. lia.
Qed.

Lemma saveHistoryItem_run (item : JSVal) (w : World) :
  _saveHistoryItem item w =
    (Returns tt,
     if storage_fault (env w) (storage_calls w) then with_storage id w
     else match history_value w with
          | JArr l =>
              written "learning_history"
                (JArr (take 200 (stamp item (clock (env w) (clock_reads w)) :: l)))
                (with_clock_read (with_storage id w))
          | _ => with_clock_read (with_storage id w)
          end).
Proof.
  unfold _saveHistoryItem, try_catch, bind at 1, wx_getStorageSync.
  destruct (storage_fault (env w) (storage_calls w)) eqn:E0; [reflexivity|].
  unfold bind, Date_now. fold (history_value w).
  destruct (history_value w); try reflexivity.
  unfold wx_setStorageSync, written.
  cbn [env storage_calls with_clock_read with_storage with_event].
  destruct (storage_fault (env w) (S (storage_calls w))); reflexivity.
Qed.

Lemma saveHistory_run (items : list JSVal) (w : World) :
  _saveHistory items w =
    (Returns tt,
     if storage_fault (env w) (storage_calls w) then with_storage id w
     else written "learning_history"
            (JArr (take 200 (stamps (clock (env w)) (clock_reads w) items
                             ++ concat_arg (history_value w))))
            (Nat.iter (length items) with_clock_read (with_storage id w))).
Proof.
  unfold _saveHistory, try_catch, bind at 1, wx_getStorageSync.
  destruct (storage_fault (env w) (storage_calls w)) eqn:E0; [reflexivity|].
  unfold bind. rewrite stamp_all_run. fold (history_value w).
  cbn [env clock_reads with_storage].
  unfold wx_setStorageSync, written.
  destruct (clock_reads_frame (length items) (with_storage id w)) as (He & _ & Hc & _).
  rewrite He, Hc. cbn [env storage_calls with_storage with_event].
  destruct (storage_fault (env w) (S (storage_calls w))); reflexivity.
Qed.

Lemma onClear_run (w : World) :
  onClear w = (Returns tt, written "learning_history" (JArr []) w).
Proof.
  unfold onClear, try_catch, wx_setStorageSync, written.
  destruct (storage_fault (env w) (storage_calls w)); reflexivity.
Qed.

Lemma history_log_written (l : list JSVal) (w : World) :
  storage_fault (env w) (storage_calls w) = false ->
  history_log (written "learning_history" (JArr l) w) = Some l.
Proof.
  intros H. unfold history_log, history_value.
  rewrite (written_lookup _ _ _ H). reflexivity.
Qed.


Lemma history_log_value (w : World) (l : list JSVal) :
  history_log w = Some l -> history_value w = JArr l.
Proof. unfold history_log. destruct (history_value w); congruence. Qed.



Lemma take_200_bound {A} (l : list A) : (length (take 200 l) <= 200)%nat.
Proof. rewrite length_take. lia. Qed.


Lemma saveHistory_log (items : list JSVal) (w : World) (old : list JSVal) :
  history_log w = Some old ->
  storage_fault (env w) (storage_calls w) = false ->
  storage_fault (env w) (S (storage_calls w)) = false ->
  let w' := snd (_saveHistory items w) in
  let new := stamps (clock (env w)) (clock_reads w) items in
  history_log w' = Some (take 200 (new ++ old)) /\
  trace w' = trace w ++ [EvSetStorage "learning_history" (JArr (take 200 (new ++ old)))] /\
  env w' = env w /\ clock_reads w' = (length items + clock_reads w)%nat /\
  storage_calls w' = S (S (storage_calls w)).
Proof.
  intros Hold H0 H1 w' new. unfold w'. rewrite saveHistory_run, H0. cbn [snd].
  rewrite (history_log_value w old Hold). cbn [concat_arg]. fold new.
  destruct (clock_reads_frame (length items) (with_storage id w))
    as (He & Hs & Hc & Ht & _ & Hr).
  split.
  { apply history_log_written. rewrite He, Hc. exact H1. }
  unfold written. cbn [trace env clock_reads storage_calls with_storage with_event].
  rewrite Ht, He, Hr, Hc. repeat split.
Qed.

Lemma saveHistoryItem_log (item : JSVal) (w : World) (old : list JSVal) :
  history_log w = Some old ->
  storage_fault (env w) (storage_calls w) = false ->
  storage_fault (env w) (S (storage_calls w)) = false ->
  let w' := snd (_saveHistoryItem item w) in
  let new := stamp item (clock (env w) (clock_reads w)) in
  history_log w' = Some (take 200 (new :: old)) /\
  trace w' = trace w ++ [EvSetStorage "learning_history" (JArr (take 200 (new :: old)))] /\
  env w' = env w /\ clock_reads w' = S (clock_reads w) /\
  storage_calls w' = S (S (storage_calls w)).
Proof.
  intros Hold H0 H1 w' new. unfold w'. rewrite saveHistoryItem_run, H0. cbn [snd].
  rewrite (history_log_value w old Hold). fold new.
  split; [apply history_log_written; exact H1|].
  repeat split.
Qed.








(** ** Where the two flows insert *)

(** C7, as stated, fails: the log holds one entry when the chat flow saves a
    learned item, and the chat flow puts the new entry before it, not after
    it. *)
Lemma chat_flow_appends_to_tail_counterexample :
  history_log after_suggestion = Some [old_entry] /\
  history_log after_chat = Some [new_entry; old_entry] /\
  history_log after_chat <> Some ([old_entry] ++ [new_entry]).
Proof.
  assert (H : history_log after_chat = Some [new_entry; old_entry])
    by (vm_compute; reflexivity).
  split; [vm_compute; reflexivity|]. split; [exact H|].
  rewrite H. intros E. vm_compute in E. discriminate.
Qed.

(** C7, amended. Both flows insert at the head: [_saveHistory] (chat) puts
    the batch of stamped items, in their order, before the existing log, and
    [_saveHistoryItem] (suggestion) puts its stamped item before it; in both
    the result is cut to its first 200 entries and written to the store in
    one write of the whole log. *)
Theorem both_flows_insert_at_head (w : World) (old : list JSVal) :
  history_log w = Some old ->
  storage_fault (env w) (storage_calls w) = false ->
  storage_fault (env w) (S (storage_calls w)) = false ->
  (forall items,
     let new := stamps (clock (env w)) (clock_reads w) items in
     let w' := snd (_saveHistory items w) in
     history_log w' = Some (take 200 (new ++ old)) /\
     trace w' = trace w ++ [EvSetStorage "learning_history" (JArr (take 200 (new ++ old)))]) /\
  (forall item,
     let new := stamp item (clock (env w) (clock_reads w)) in
     let w' := snd (_saveHistoryItem item w) in
     history_log w' = Some (take 200 (new :: old)) /\
     trace w' = trace w ++ [EvSetStorage "learning_history" (JArr (take 200 (new :: old)))]).
Proof.
  intros Hold H0 H1. split.
  - intros items new w'.
    destruct (saveHistory_log items w old Hold H0 H1) as (? & ? & _). auto.
  - intros item new w'.
    destruct (saveHistoryItem_log item w old Hold H0 H1) as (? & ? & _). auto.
Qed.

Lemma both_flows_insert_at_head_witness :
  history_log (snd (_saveHistory (numbered_items 2) after_suggestion))
  = Some (take 200 (stamps (clock (env after_suggestion)) (clock_reads after_suggestion)
                      (numbered_items 2) ++ [old_entry])).
Proof.
  assert (Hlog : history_log after_suggestion = Some [old_entry])
    by (vm_compute; reflexivity).
  assert (H0 : storage_fault (env after_suggestion) (storage_calls after_suggestion) = false)
    by (vm_compute; reflexivity).
  assert (H1 : storage_fault (env after_suggestion) (S (storage_calls after_suggestion)) = false)
    by (vm_compute; reflexivity).
  exact (proj1 (proj1 (both_flows_insert_at_head after_suggestion [old_entry] Hlog H0 H1)
                  (numbered_items 2))).
Defined.

(** ** Stamping *)

Lemma jsstring_eqb_refl (k : jsstring) : jsstring_eqb k k = true.
Proof. apply bool_decide_eq_true_2. reflexivity. Qed.

Lemma jsstring_eqb_neq (k k' : jsstring) : k <> k' -> jsstring_eqb k k' = false.
Proof. apply bool_decide_eq_false_2. Qed.

Lemma lookup_set_prop_eq (k : jsstring) (v : JSVal) (props : list (jsstring * JSVal)) :
  lookup_prop k (set_prop k v props) = v.
Proof.
  induction props as [|[k' v'] rest IH]; cbn [set_prop lookup_prop].
  - rewrite jsstring_eqb_refl. reflexivity.
  - destruct (jsstring_eqb k k') eqn:E; cbn [lookup_prop]; rewrite E; [reflexivity|exact IH].
Qed.

Lemma lookup_set_prop_ne (k k0 : jsstring) (v : JSVal) (props : list (jsstring * JSVal)) :
  k0 <> k -> lookup_prop k0 (set_prop k v props) = lookup_prop k0 props.
Proof.
  intros Hne. induction props as [|[k' v'] rest IH]; cbn [set_prop lookup_prop].
  - rewrite (jsstring_eqb_neq k0 k Hne). reflexivity.
  - destruct (jsstring_eqb k k') eqn:E; cbn [lookup_prop].
    + apply bool_decide_eq_true_1 in E. subst k'.
      rewrite (jsstring_eqb_neq k0 k Hne). reflexivity.
    + rewrite IH. reflexivity.
Qed.

Lemma stamps_lookup (clk : nat -> Z) (n i : nat) (items : list JSVal) (it : JSVal) :
  items !! i = Some it -> stamps clk n items !! i = Some (stamp it (clk (n + i)%nat)).
Proof.
  revert n i. induction items as [|x rest IH]; intros n i H; [discriminate|].
  destruct i as [|i].
  - injection H as ->. rewrite Nat.add_0_r. reflexivity.
  - change (stamps clk (S n) rest !! i = Some (stamp it (clk (n + S i)%nat))).
    rewrite Nat.add_succ_r. exact (IH (S n) i H).
Qed.

(** C8, as stated, fails: an item that carries the timestamp 5 is saved, by
    either flow, with the time of the save in its place. *)
Lemma append_keeps_existing_timestamp_counterexample :
  let e := replying [] in
  get_prop stamped_item (js "ts") = JNum 5 0 /\
  history_log (snd (_saveHistory [stamped_item] (initial_world e)))
    = Some [JObj [(js "word", JStr (js "cat")); (js "ts", JNum 1700000000000 0)]] /\
  history_log (snd (_saveHistoryItem stamped_item (initial_world e)))
    = Some [JObj [(js "word", JStr (js "cat")); (js "ts", JNum 1700000000000 0)]].
Proof. vm_compute. repeat split. Qed.

(** C8, amended. History append stamps every incoming item with the time of
    the save, stamped or not: the entry's [ts] is the clock reading whatever
    [ts] the item carried, and every other property of the item is kept. The
    suggestion flow stores the stamped item at the head; the chat flow
    stores the i-th item of the batch, stamped with the i-th reading, at
    index i. *)
Theorem history_append_always_restamps (w : World) (old : list JSVal) :
  history_log w = Some old ->
  storage_fault (env w) (storage_calls w) = false ->
  storage_fault (env w) (S (storage_calls w)) = false ->
  (forall item now,
     get_prop (stamp item now) (js "ts") = JNum now 0 /\
     forall k, k <> js "ts" -> get_prop (stamp item now) k = lookup_prop k (spread item)) /\
  (forall item,
     exists log, history_log (snd (_saveHistoryItem item w)) = Some log /\
                 head log = Some (stamp item (clock (env w) (clock_reads w)))) /\
  (forall items i it,
     items !! i = Some it -> (i < 200)%nat ->
     exists log, history_log (snd (_saveHistory items w)) = Some log /\
                 log !! i = Some (stamp it (clock (env w) (clock_reads w + i)%nat))).
Proof.
  intros Hold H0 H1. split; [|split].
  - intros item now. unfold stamp. cbn [get_prop]. split.
    + apply lookup_set_prop_eq.
    + intros k Hk. apply lookup_set_prop_ne. exact Hk.
  - intros item. eexists. split.
    + apply (saveHistoryItem_log item w old Hold H0 H1).
    + reflexivity.
  - intros items i it Hit Hi. eexists. split.
    + apply (saveHistory_log items w old Hold H0 H1).
    + rewrite lookup_take_lt by exact Hi.
      apply lookup_app_l_Some, stamps_lookup. exact Hit.
Qed.

Lemma history_append_always_restamps_witness :
  get_prop (stamp stamped_item 1700000000000) (js "ts") = JNum 1700000000000 0.
Proof.
  apply (history_append_always_restamps (initial_world (replying [])) []); reflexivity.
Defined.

(** ** Running the normalizer *)

Lemma show_and_save_run (item : JSVal) (w : World) :
  show_and_save item w = (Returns tt, snd (_saveHistoryItem item (with_suggestion item w))).
Proof. unfold show_and_save, bind, modify. rewrite saveHistoryItem_run. reflexivity. Qed.




Lemma suggest_from_reply_run (res : JSVal) (w : World) :
  suggest_from_reply res w =
    match tagged_item (reply_or [] res) with
    | Some item => show_and_save item w
    | None =>
        if (4 <=? length (pipe_parts (reply_or [] res)))%nat
        then show_and_save (pipe_item (reply_or [] res)) w
        else (Returns tt,
              with_event (EvToast PARSE_FAILED)
                (with_suggestion (fallback_item (reply_or [] res)) w))
    end.
Proof.
  assert (Hrest : forall w0,
            (if (4 <=? length (pipe_parts (reply_or [] res)))%nat
             then show_and_save (pipe_item (reply_or [] res))
             else modify (with_suggestion (fallback_item (reply_or [] res))) >>
                  wx_showToast PARSE_FAILED) w0
            = if (4 <=? length (pipe_parts (reply_or [] res)))%nat
              then show_and_save (pipe_item (reply_or [] res)) w0
              else (Returns tt,
                    with_event (EvToast PARSE_FAILED)
                      (with_suggestion (fallback_item (reply_or [] res)) w0)))
    by (intros w0; destruct (4 <=? _)%nat; reflexivity).
  unfold suggest_from_reply, tagged_item, JSON_parse_call.
  cbv beta iota delta [bind try_catch ret throw].
  destruct (match_learned (reply_or [] res)) as [[|c g]|];
    [exact (Hrest w)| |exact (Hrest w)].
  destruct (JSON_parse (c :: g)) as [arr|]; [|exact (Hrest w)].
  destruct (nonempty_array arr) as [[item rest]|]; [|exact (Hrest w)].
  cbn [option_map fst]. rewrite show_and_save_run. reflexivity.
Qed.

Lemma fetchSuggestion_run (sessionId : JSVal) (w : World) :
  fetchSuggestion sessionId w =
    match post (js "/chat") (suggestion_request sessionId) w with
    | (Returns res, w1) =>
        match learned_items res with
        | Some (item, _) => show_and_save item w1
        | None => suggest_from_reply res w1
        end
    | (Throws _, w1) => (Returns tt, gave_up w1)
    end.
Proof.
  unfold fetchSuggestion, try_catch, bind at 1.
  destruct (post (js "/chat") (suggestion_request sessionId) w) as [[res|e] w1];
    [|reflexivity].
  destruct (learned_items res) as [[item rest]|].
  - rewrite show_and_save_run. reflexivity.
  - rewrite suggest_from_reply_run.
    destruct (tagged_item _); [rewrite show_and_save_run; reflexivity|].
    destruct (4 <=? _)%nat; [rewrite show_and_save_run|]; reflexivity.
Qed.

(** A reply that is a string is the reply text. *)
Lemma reply_or_string (t : jsstring) :
  reply_or [] (JObj [(js "reply", JStr t)]) = t.
Proof. destruct t; reflexivity. Qed.







(** ** What the stripping pass removes *)












(** ** Running the chat flow *)

Lemma addUser_run (t : jsstring) (w : World) :
  addUser t w =
    (Returns tt,
     with_message {| msg_id := js "m" ++ dec (clock (env w) (clock_reads w)) ++ js "u";
                     role := user; text := t |} (with_clock_read w)).
Proof. reflexivity. Qed.

Lemma addBot_run (t : jsstring) (w : World) :
  addBot t w =
    (Returns tt,
     with_message {| msg_id := js "m" ++ dec (clock (env w) (clock_reads w)) ++ js "b";
                     role := bot; text := t |} (with_clock_read w)).
Proof. reflexivity. Qed.



Lemma onSend_run (w w1 : World) (res : JSVal) (c : N) (t : jsstring) :
  trim (inputText w) = c :: t ->
  post (js "/chat") (chat_request (sessionId w) (c :: t)) (sending_world w (c :: t))
    = (Returns res, w1) ->
  onSend w =
    (Returns tt,
     with_sending false
       (let w2 := snd (addBot (trim (strip_learned (reply_or (js "No reply") res))) w1) in
        match learned_items res with
        | Some (x, rest) => snd (_saveHistory (x :: rest) w2)
        | None => w2
        end)).
Proof.
  intros Htrim Hpost. unfold onSend. rewrite Htrim.
  unfold bind at 1. rewrite addUser_run.
  unfold bind at 1, modify at 1. unfold finally, try_catch, bind at 1.
  unfold sending_world in Hpost. rewrite addUser_run in Hpost. cbn [snd] in Hpost.
  rewrite Hpost.
  unfold bind at 1. rewrite addBot_run. cbn [snd].
  destruct (learned_items res) as [[x rest]|]; [|reflexivity].
  rewrite saveHistory_run. reflexivity.
Qed.


(** ** The tagged block: which one is parsed, what is displayed *)





(** ** [JSON.parse] does not depend on its fuel *)

Lemma skip_json_ws_length (s : jsstring) :
  (length (skip_json_ws s) <= length s)%nat.
Proof.
  induction s as [|c s IH]; [reflexivity|].
  cbn [skip_json_ws]. destruct (is_json_ws c); cbn [length]; lia.
Qed.

Lemma skip_json_ws_cons (s s' : jsstring) (c : N) :
  skip_json_ws s = c :: s' -> (length s' < length s)%nat.
Proof.
  intros H. pose proof (skip_json_ws_length s) as Hl. rewrite H in Hl.
  cbn [length] in Hl. lia.
Qed.

Lemma span_digits_length (s r : jsstring) (ds : list N) :
  span_digits s = (ds, r) -> (length ds + length r = length s)%nat.
Proof.
  revert ds r. induction s as [|c s IH]; intros ds r H; cbn [span_digits] in H.
  - injection H as <- <-. reflexivity.
  - destruct (is_digit c).
    + destruct (span_digits s) as [ds' r'] eqn:E. injection H as <- <-.
      specialize (IH ds' r' eq_refl). cbn [length]. lia.
    + injection H as <- <-. reflexivity.
Qed.

Lemma cons_fst_Some {A B} (a : A) (o : option (list A * B)) (l : list A) (b : B) :
  cons_fst a o = Some (l, b) -> exists l', o = Some (l', b).
Proof.
  destruct o as [[l' b']|]; [|discriminate].
  cbn. intros [= <- <-]. exists l'. reflexivity.
Qed.

Lemma parse_string_body_length (s r v : jsstring) :
  parse_string_body s = Some (v, r) -> (length r < length s)%nat.
Proof.
  revert v r.
  induction s as [s IH] using (induction_ltof1 _ (@length N)); unfold ltof in IH.
  intros v r H. destruct s as [|c rest]; [discriminate|].
  cbn [parse_string_body] in H. cbn [length].
  destruct (c =? 34); [injection H as <- <-; lia|].
  destruct (c =? 92).
  - destruct rest as [|esc rest1]; [discriminate|]. cbn [length].
    destruct (esc =? 117).
    + destruct rest1 as [|h1 [|h2 [|h3 [|h4 rest2]]]]; try discriminate.
      destruct (hex4 h1 h2 h3 h4); [|discriminate].
      apply cons_fst_Some in H as [l' H].
      apply IH in H; cbn [length] in *; lia.
    + destruct (unescape esc); [|discriminate].
      apply cons_fst_Some in H as [l' H].
      apply IH in H; cbn [length] in *; lia.
  - destruct (c <? 32); [discriminate|].
    apply cons_fst_Some in H as [l' H].
    apply IH in H; cbn [length] in *; lia.
Qed.

Lemma span_digits_digit (c : N) (s r : jsstring) (ds : list N) :
  is_digit c = true -> span_digits (c :: s) = (ds, r) -> (length r <= length s)%nat.
Proof.
  intros Hc H. cbn [span_digits] in H. rewrite Hc in H.
  destruct (span_digits s) as [ds' r'] eqn:E. injection H as <- <-.
  apply span_digits_length in E. lia.
Qed.

Lemma parse_number_length (s r : jsstring) (v : JSVal) :
  parse_number s = Some (v, r) -> (length r < length s)%nat.
Proof.
  intros H. unfold parse_number in H.
  break_match_in H; injection H as <- <-; subst;
    repeat match goal with
           | E : (_, _) = (_, _) |- _ => injection E as ? ?; subst
           | E : Some _ = Some _ |- _ => injection E as ?; subst
           end;
    repeat match goal with
           | Hd : is_digit ?c = true, E : span_digits (?c :: ?s) = (_, _) |- _ =>
               apply (span_digits_digit c s _ _ Hd) in E
           | E : span_digits _ = (_, _) |- _ => apply span_digits_length in E
           end;
    cbn [length] in *; lia.
Qed.

Lemma parse_elems_length (fuel : nat) pv (s r : jsstring) (acc l : list JSVal) :
  consuming pv ->
  parse_elems fuel pv s acc = Some (l, r) -> (length r < length s)%nat.
Proof.
  intros Hpv. revert s acc.
  induction fuel as [|fuel IH]; intros s acc H; [discriminate|].
  cbn [parse_elems] in H.
  destruct (pv s) as [[v s1]|] eqn:Ev; [|discriminate].
  apply Hpv in Ev.
  destruct (skip_json_ws s1) as [|c s2] eqn:Ews; [discriminate|].
  apply skip_json_ws_cons in Ews.
  destruct (c =? 44); [apply IH in H; lia|].
  destruct (c =? 93); [|discriminate].
  injection H as _ <-. lia.
Qed.

Lemma parse_members_length (fuel : nat) pv (s r : jsstring)
    (acc l : list (jsstring * JSVal)) :
  consuming pv ->
  parse_members fuel pv s acc = Some (l, r) -> (length r < length s)%nat.
Proof.
  intros Hpv. revert s acc.
  induction fuel as [|fuel IH]; intros s acc H; [discriminate|].
  cbn [parse_members] in H.
  destruct (skip_json_ws s) as [|q s1] eqn:E1; [discriminate|].
  apply skip_json_ws_cons in E1.
  destruct (q =? 34); [|discriminate].
  destruct (parse_string_body s1) as [[k s2]|] eqn:Ek; [|discriminate].
  apply parse_string_body_length in Ek.
  destruct (skip_json_ws s2) as [|colon s3] eqn:E3; [discriminate|].
  apply skip_json_ws_cons in E3.
  destruct (colon =? 58); [|discriminate].
  destruct (pv s3) as [[v s4]|] eqn:Ev; [|discriminate].
  apply Hpv in Ev.
  destruct (skip_json_ws s4) as [|c s5] eqn:E5; [discriminate|].
  apply skip_json_ws_cons in E5.
  destruct (c =? 44); [apply IH in H; lia|].
  destruct (c =? 125); [|discriminate].
  injection H as _ <-. lia.
Qed.

Lemma parse_value_length (fuel : nat) : consuming (parse_value fuel).
Proof.
  induction fuel as [|fuel IH]; intros s v r H; [discriminate|].
  cbn [parse_value] in H.
  destruct (skip_json_ws s) as [|c s1] eqn:E1; [discriminate|].
  apply skip_json_ws_cons in E1.
  destruct (c =? 91).
  { destruct (skip_json_ws s1) as [|d s2] eqn:E2; [discriminate|].
    apply skip_json_ws_cons in E2.
    destruct (d =? 93); [injection H as _ <-; lia|].
    destruct (parse_elems fuel (parse_value fuel) s1 []) as [[l r']|] eqn:El; [|discriminate].
    apply (parse_elems_length _ _ _ _ _ _ IH) in El. injection H as _ <-. lia. }
  destruct (c =? 123).
  { destruct (skip_json_ws s1) as [|d s2] eqn:E2; [discriminate|].
    apply skip_json_ws_cons in E2.
    destruct (d =? 125); [injection H as _ <-; lia|].
    destruct (parse_members fuel (parse_value fuel) s1 []) as [[l r']|] eqn:El; [|discriminate].
    apply (parse_members_length _ _ _ _ _ _ IH) in El. injection H as _ <-. lia. }
  destruct (c =? 34).
  { destruct (parse_string_body s1) as [[str r']|] eqn:Es; [|discriminate].
    apply parse_string_body_length in Es. injection H as _ <-. lia. }
  destruct (starts_with (js "true") (c :: s1)).
  { injection H as _ <-. rewrite length_drop. cbn [length]. lia. }
  destruct (starts_with (js "false") (c :: s1)).
  { injection H as _ <-. rewrite length_drop. cbn [length]. lia. }
  destruct (starts_with (js "null") (c :: s1)).
  { injection H as _ <-. rewrite length_drop. cbn [length]. lia. }
  apply parse_number_length in H. cbn [length] in H. lia.
Qed.

Lemma parse_elems_fuel pv pv' (n : nat) :
  forall (m : nat) (s : jsstring) (acc : list JSVal),
    consuming pv ->
    (forall s', (length s' <= length s)%nat -> pv s' = pv' s') ->
    (length s < n)%nat -> (length s < m)%nat ->
    parse_elems n pv s acc = parse_elems m pv' s acc.
Proof.
  induction n as [|n IH]; intros m s acc Hpv Hagree Hn Hm; [lia|].
  destruct m as [|m]; [lia|].
  cbn [parse_elems]. rewrite <- (Hagree s) by lia.
  destruct (pv s) as [[v s1]|] eqn:Ev; [|reflexivity].
  apply Hpv in Ev.
  destruct (skip_json_ws s1) as [|c s2] eqn:Ews; [reflexivity|].
  apply skip_json_ws_cons in Ews.
  destruct (c =? 44); [|reflexivity].
  apply IH; [exact Hpv| |lia|lia].
  intros s' Hs'. apply Hagree. lia.
Qed.

Lemma parse_members_fuel pv pv' (n : nat) :
  forall (m : nat) (s : jsstring) (acc : list (jsstring * JSVal)),
    consuming pv ->
    (forall s', (length s' <= length s)%nat -> pv s' = pv' s') ->
    (length s < n)%nat -> (length s < m)%nat ->
    parse_members n pv s acc = parse_members m pv' s acc.
Proof.
  induction n as [|n IH]; intros m s acc Hpv Hagree Hn Hm; [lia|].
  destruct m as [|m]; [lia|].
  cbn [parse_members].
  destruct (skip_json_ws s) as [|q s1] eqn:E1; [reflexivity|].
  apply skip_json_ws_cons in E1.
  destruct (q =? 34); [|reflexivity].
  destruct (parse_string_body s1) as [[k s2]|] eqn:Ek; [|reflexivity].
  apply parse_string_body_length in Ek.
  destruct (skip_json_ws s2) as [|colon s3] eqn:E3; [reflexivity|].
  apply skip_json_ws_cons in E3.
  destruct (colon =? 58); [|reflexivity].
  rewrite <- (Hagree s3) by lia.
  destruct (pv s3) as [[v s4]|] eqn:Ev; [|reflexivity].
  apply Hpv in Ev.
  destruct (skip_json_ws s4) as [|c s5] eqn:E5; [reflexivity|].
  apply skip_json_ws_cons in E5.
  destruct (c =? 44); [|reflexivity].
  apply IH; [exact Hpv| |lia|lia].
  intros s' Hs'. apply Hagree. lia.
Qed.

(** Above the length of the text, the fuel does not matter: [JSON.parse]
    never fails, nor succeeds, for lack of fuel. *)
Lemma parse_value_fuel (n m : nat) (s : jsstring) :
  (length s < n)%nat -> (length s < m)%nat -> parse_value n s = parse_value m s.
Proof.
  revert m s. induction n as [|n IH]; intros m s Hn Hm; [lia|].
  destruct m as [|m]; [lia|].
  cbn [parse_value].
  destruct (skip_json_ws s) as [|c s1] eqn:E1; [reflexivity|].
  apply skip_json_ws_cons in E1.
  assert (Hagree : forall s', (length s' <= length s1)%nat ->
                              parse_value n s' = parse_value m s')
    by (intros s' Hs'; apply IH; lia).
  destruct (c =? 91).
  { destruct (skip_json_ws s1) as [|d s2]; [reflexivity|].
    destruct (d =? 93); [reflexivity|].
    rewrite (parse_elems_fuel (parse_value n) (parse_value m) n m s1 []
               (parse_value_length n) Hagree) by lia.
    reflexivity. }
  destruct (c =? 123); [|reflexivity].
  destruct (skip_json_ws s1) as [|d s2]; [reflexivity|].
  destruct (d =? 125); [reflexivity|].
  rewrite (parse_members_fuel (parse_value n) (parse_value m) n m s1 []
             (parse_value_length n) Hagree) by lia.
  reflexivity.
Qed.

Lemma JSON_parse_any_fuel (fuel : nat) (text : jsstring) :
  (length text < fuel)%nat ->
  JSON_parse text =
    match parse_value fuel text with
    | Some (v, rest) =>
        match skip_json_ws rest with
        | [] => Some v
        | _ :: _ => None
        end
    | None => None
    end.
Proof.
  intros H. unfold JSON_parse.
  rewrite (parse_value_fuel (S (length text)) fuel text) by lia. reflexivity.
Qed.

(** * Further properties *)

(** ** The executor, whatever is stored *)

Lemma executor_frame_refl (w : World) : executor_frame 0 0 w w.
Proof.
  repeat split. exists []. split; [symmetry; apply app_nil_r|constructor].
Qed.

Lemma executor_frame_read (nr nc : nat) (w w1 : World) :
  executor_frame nr nc w w1 -> executor_frame nr (S nc) w (with_storage id w1).
Proof.
  intros (He & Hc & Hp & Hr & Hs & Hk & Ht).
  repeat split; try (cbn; first [assumption | apply Hp]).
  cbn [storage_calls with_storage]. rewrite Hs. reflexivity.
Qed.

Lemma executor_frame_request (nr nc : nat) (w w1 : World) (r : Request) :
  executor_frame nr nc w w1 ->
  executor_frame (S nr) nc w (with_request (with_event (EvRequest r) w1)).
Proof.
  intros (He & Hc & Hp & Hr & Hs & Hk & evs & Ht & Hev).
  repeat split; try (cbn; first [assumption | apply Hp]).
  - cbn [requests with_request with_event]. rewrite Hr. reflexivity.
  - exists (evs ++ [EvRequest r]). cbn [trace with_request with_event].
    rewrite Ht, app_assoc. split; [reflexivity|].
    apply Forall_app_2; [exact Hev|]. constructor; [left; eauto|constructor].
Qed.

Lemma executor_frame_written (nr nc : nat) (w w1 : World) (v : JSVal) :
  executor_frame nr nc w w1 ->
  executor_frame nr (S nc) w (written "BASE_URL" v w1).
Proof.
  intros (He & Hc & Hp & Hr & Hs & Hk & evs & Ht & Hev).
  unfold written.
  repeat split; try (cbn; first [assumption | apply Hp]).
  - cbn [storage_calls with_storage with_event]. rewrite Hs. reflexivity.
  - intros k Hne. cbn [storage with_storage with_event].
    destruct (storage_fault _ _); cbn [id]; [apply Hk; exact Hne|].
    rewrite lookup_insert_ne by congruence. apply Hk. exact Hne.
  - exists (evs ++ [EvSetStorage "BASE_URL" v]). cbn [trace with_storage with_event].
    rewrite Ht, app_assoc. split; [reflexivity|].
    apply Forall_app_2; [exact Hev|]. constructor; [right; eauto|constructor].
Qed.

Lemma attempt_run method path data (base : JSVal) (w : World) :
  attempt method path data base w =
    (settle base (network (env w) (requests w)
                    {| url := ToString base ++ path; method := method; body := data |}),
     with_request
       (with_event (EvRequest {| url := ToString base ++ path; method := method;
                                 body := data |}) w)).
Proof. reflexivity. Qed.

Lemma withFallback_frame method path data (w : World) :
  exists nr nc,
    executor_frame nr nc w (snd (_wxRequest method path data w)) /\
    (nr <= 2)%nat /\ (1 <= nc <= 2)%nat /\
    (forall r, fst (_wxRequest method path data w) = Returns r -> (1 <= nr)%nat).
Proof.
  pose proof (executor_frame_read 0 0 w w (executor_frame_refl w)) as H0.
  assert (Hgo : forall (local : bool),
             exists nr nc,
               executor_frame nr nc w
                 (snd (try_catch (attempt method path data (stored_base w))
                         (fun _ => setBaseUrl (JStr (if local then DEFAULTS_1 else DEFAULTS_0)) >>
                                   attempt method path data
                                     (JStr (if local then DEFAULTS_1 else DEFAULTS_0)))
                         (with_storage id w))) /\
               (nr <= 2)%nat /\ (1 <= nc <= 2)%nat /\ (1 <= nr)%nat).
  { intros local. unfold try_catch. rewrite attempt_run.
    destruct (settle (stored_base w) _) as [r|e].
    - exists 1%nat, 1%nat. cbn [snd].
      split; [apply executor_frame_request; exact H0|lia].
    - unfold bind. rewrite setBaseUrl_run, attempt_run. cbn [snd].
      exists 2%nat, 2%nat. split; [|lia].
      apply executor_frame_request, executor_frame_written, executor_frame_request.
      exact H0. }
  assert (Hp : _wxRequest method path data w
               = (let! local := call_includes (stored_base w) (js "127.0.0.1") in
                  try_catch (attempt method path data (stored_base w))
                    (fun _ => setBaseUrl (JStr (if local then DEFAULTS_1 else DEFAULTS_0)) >>
                              attempt method path data
                                (JStr (if local then DEFAULTS_1 else DEFAULTS_0))))
                   (with_storage id w)).
  { unfold _wxRequest, withFallback, bind at 1. rewrite getStoredBaseUrl_run. reflexivity. }
  rewrite Hp. clear Hp.
  destruct (stored_base w) as [| |b|m e|s|l|props] eqn:E;
    try (exists 0%nat, 1%nat; split; [exact H0|]; split; [lia|]; split; [lia|discriminate]).
  - destruct (Hgo (includes (js "127.0.0.1") s)) as (nr & nc & ? & ? & ? & ?).
    exists nr, nc. auto.
  - destruct (Hgo (existsb (fun v => match v with
                                     | JStr t => jsstring_eqb t (js "127.0.0.1")
                                     | _ => false
                                     end) l)) as (nr & nc & ? & ? & ? & ?).
    exists nr, nc. auto.
Qed.

Lemma persisted_frame (nr nc : nat) (w w1 : World) (r : Result Resolved) :
  executor_frame nr nc w w1 ->
  exists nc', executor_frame nr nc' w (snd (persisted (r, w1))) /\
              (nc <= nc' <= S nc)%nat.
Proof.
  intros H. destruct r as [res|e]; cbn [persisted snd]; [|exists nc; split; [exact H|lia]].
  destruct (truthy (res_base res)); [|exists nc; split; [exact H|lia]].
  exists (S nc). split; [apply executor_frame_written; exact H|lia].
Qed.

Lemma persisted_fst (p : Result Resolved * World) :
  fst (persisted p) = match fst p with
                      | Returns res => Returns (res_data res)
                      | Throws e => Throws e
                      end.
Proof. destruct p as [[res|e] w1]; reflexivity. Qed.

(** X1. Whatever is stored under [BASE_URL] (a string, a value of another
    type, nothing), and whatever the network and the storage do, a call of
    [post] or [get] sends at most two requests and makes at most three
    storage calls, all of them on [BASE_URL]: it leaves every other stored
    key, the clock and the page data as they were, and adds to the trace
    only requests and writes to [BASE_URL]. When it returns a body, it has
    sent at least one request. *)
Theorem executor_is_bounded_and_confined
    (w : World) (run : M JSVal) (method : Method) (path : jsstring) (data : JSVal) :
  entry_point run method path data ->
  let w' := snd (run w) in
  (requests w <= requests w' <= 2 + requests w)%nat /\
  (storage_calls w < storage_calls w' <= 3 + storage_calls w)%nat /\
  (forall k, k <> "BASE_URL" -> storage w' !! k = storage w !! k) /\
  (exists evs, trace w' = trace w ++ evs /\ Forall executor_event evs) /\
  env w' = env w /\ clock_reads w' = clock_reads w /\ same_page w w' /\
  (forall d, fst (run w) = Returns d -> (requests w < requests w')%nat).
Proof.
  intros Hrun w'. unfold w'. rewrite (entry_point_run run method path data w Hrun).
  destruct (withFallback_frame method path data w) as (nr & nc & Hf & Hnr & Hnc & Hret).
  destruct (_wxRequest method path data w) as [r w1] eqn:E. cbn [fst snd] in Hf, Hret.
  destruct (persisted_frame nr nc w w1 r Hf) as (nc' & Hf' & Hnc').
  destruct Hf' as (He & Hc & Hp & Hr & Hs & Hk & Ht).
  rewrite Hr, Hs.
  split; [lia|]. split; [lia|]. split; [exact Hk|]. split; [exact Ht|].
  split; [exact He|]. split; [exact Hc|]. split; [exact Hp|].
  intros d Hd. rewrite persisted_fst in Hd. cbn [fst] in Hd.
  destruct r as [res|e]; [|discriminate].
  specialize (Hret res eq_refl). lia.
Qed.

Lemma executor_is_bounded_and_confined_witness :
  (requests (initial_world both_down)
   <= requests (snd (post (js "/chat") JNull (initial_world both_down)))
   <= 2 + requests (initial_world both_down))%nat.
Proof.
  apply (executor_is_bounded_and_confined (initial_world both_down)
           (post (js "/chat") JNull) POST (js "/chat") JNull).
  left. split; reflexivity.
Defined.

(** X2. When what is stored under [BASE_URL] is truthy but neither a string
    nor an array (a number, [true], an object), [first.includes] is not a
    function: [post] and [get] reject with a [TypeError] without sending any
    request and without writing anything. *)
Theorem non_string_endpoint_rejects_before_any_request
    (w : World) (run : M JSVal) (method : Method) (path : jsstring) (data v : JSVal) :
  entry_point run method path data ->
  storage_fault (env w) (storage_calls w) = false ->
  storage w !! "BASE_URL" = Some v ->
  truthy v = true ->
  (forall s, v <> JStr s) ->
  (forall l, v <> JArr l) ->
  fst (run w) = Throws TypeError /\
  requests (snd (run w)) = requests w /\
  trace (snd (run w)) = trace w /\
  storage (snd (run w)) = storage w.
Proof.
  intros Hrun Hok Hv Htruthy Hstr Harr.
  assert (Hbase : stored_base w = v).
  { unfold stored_base, js_or, default. rewrite Hok, Hv. cbn [from_option id].
    rewrite Htruthy. reflexivity. }
  assert (Hreq : _wxRequest method path data w = (Throws TypeError, with_storage id w)).
  { unfold _wxRequest, withFallback, bind at 1. rewrite getStoredBaseUrl_run, Hbase.
    destruct v; try reflexivity; [exfalso; eapply Hstr|exfalso; eapply Harr]; reflexivity. }
  rewrite (entry_point_run run method path data w Hrun), Hreq.
  repeat split.
Qed.

Lemma non_string_endpoint_rejects_before_any_request_witness :
  fst (get (js "/health") (snd (setBaseUrl (JNum 8000 0) (initial_world primary_down))))
  = Throws TypeError.
Proof.
  apply (non_string_endpoint_rejects_before_any_request
           (snd (setBaseUrl (JNum 8000 0) (initial_world primary_down)))
           (get (js "/health")) GET (js "/health") JUndefined (JNum 8000 0)).
  - right. repeat split; reflexivity.
  - reflexivity.
  - reflexivity.
  - reflexivity.
  - intros s. discriminate.
  - intros l. discriminate.
Defined.

(** X3. The endpoint store is a round trip that never throws: [setBaseUrl]
    returns whether or not the storage accepts the write, and when the
    storage accepts the write and the next read, [getStoredBaseUrl] gives
    back the value written if it is truthy and the first default if it is
    not; a write the storage refuses leaves the store as it was. *)
Theorem endpoint_store_round_trip (w : World) (u : JSVal) :
  storage_fault (env w) (S (storage_calls w)) = false ->
  fst (setBaseUrl u w) = Returns tt /\
  (storage_fault (env w) (storage_calls w) = false ->
   fst (getStoredBaseUrl (snd (setBaseUrl u w)))
   = Returns (if truthy u then u else JStr DEFAULTS_0)) /\
  (storage_fault (env w) (storage_calls w) = true ->
   storage (snd (setBaseUrl u w)) = storage w /\
   fst (getStoredBaseUrl (snd (setBaseUrl u w)))
   = Returns (js_or (default (JStr []) (storage w !! "BASE_URL")) (JStr DEFAULTS_0))).
Proof.
  intros Hread. rewrite setBaseUrl_run. cbn [fst snd].
  split; [reflexivity|]. rewrite getStoredBaseUrl_run. cbn [fst].
  unfold stored_base, written.
  cbn [env storage storage_calls with_storage with_event]. rewrite Hread.
  split; intros Hw; rewrite Hw; cbn [id].
  - rewrite lookup_insert_eq. reflexivity.
  - split; reflexivity.
Qed.

Lemma endpoint_store_round_trip_witness :
  fst (getStoredBaseUrl (snd (setBaseUrl (JStr DEFAULTS_1) (initial_world primary_down))))
  = Returns (JStr DEFAULTS_1).
Proof.
  exact (proj1 (proj2 (endpoint_store_round_trip (initial_world primary_down)
                         (JStr DEFAULTS_1) eq_refl)) eq_refl).
Defined.

(** ** The endpoint the next call starts with *)

Lemma stored_base_written (w1 : World) (v : JSVal) :
  (forall n, storage_fault (env w1) n = false) ->
  truthy v = true ->
  stored_base (written "BASE_URL" v w1) = v.
Proof.
  intros Hok Hv. unfold stored_base, written, js_or, default.
  cbn [env storage storage_calls with_storage with_event].
  rewrite !Hok. rewrite lookup_insert_eq. cbn [from_option id]. rewrite Hv. reflexivity.
Qed.

Lemma first_request_goes_to_stored_base
    (w : World) (run : M JSVal) method path data (f : jsstring) :
  entry_point run method path data ->
  stored_base w = JStr f ->
  exists tail,
    trace (snd (run w)) = trace w ++ EvRequest (request_to method path data f) :: tail.
Proof.
  intros Hrun Hf. rewrite (entry_point_run run method path data w Hrun).
  assert (Hw : forall v w1 tail,
             trace w1 = trace w ++ EvRequest (request_to method path data f) :: tail ->
             exists tail',
               trace (written "BASE_URL" v w1)
               = trace w ++ EvRequest (request_to method path data f) :: tail').
  { intros v w1 tail Ht. exists (tail ++ [EvSetStorage "BASE_URL" v]).
    unfold written. cbn [trace with_storage with_event].
    rewrite Ht, <- app_assoc. reflexivity. }
  assert (H1 : trace (after_first w (request_to method path data) f)
               = trace w ++ EvRequest (request_to method path data f) :: [])
    by reflexivity.
  assert (H2 : trace (after_retry w (request_to method path data) f)
               = trace w ++ EvRequest (request_to method path data f)
                     :: [EvSetStorage "BASE_URL" (JStr (alternate f));
                         EvRequest (request_to method path data (alternate f))]).
  { unfold after_retry, after_first, written. cbn [trace with_request with_event with_storage].
    rewrite <- !app_assoc. reflexivity. }
  destruct (wxRequest_world w method path data f Hf) as [(r & -> & _)|(o & -> & _)].
  - unfold persisted. destruct (truthy (res_base r)); cbn [snd]; eauto.
  - destruct o as [r|e]; unfold persisted; cbn [snd]; [|eauto].
    destruct (truthy (res_base r)); eauto.
Qed.

Lemma alternate_involutive_on_pool (f : jsstring) :
  f ∈ DEFAULTS -> alternate (alternate f) = f.
Proof.
  unfold DEFAULTS. intros Hf.
  apply elem_of_cons in Hf as [->|Hf]; [reflexivity|].
  apply list_elem_of_singleton in Hf as ->. reflexivity.
Qed.

(** X4. With a storage that works, the executor remembers which endpoint to
    start with: after a call whose first attempt (against the stored string
    endpoint [f]) succeeded, the store yields [f] again; after a call whose
    first attempt failed, it yields the alternate, whether the retry
    succeeded or not; and the next call of [post] or [get] sends its first
    request to that endpoint. On the two defaults the alternate of the
    alternate is the endpoint itself, so a second failing call switches
    back. *)
Theorem next_call_starts_with_the_remembered_endpoint
    (w : World) (run run2 : M JSVal) (method method2 : Method)
    (path path2 : jsstring) (data data2 : JSVal) (f : jsstring) :
  entry_point run method path data ->
  entry_point run2 method2 path2 data2 ->
  (forall n, storage_fault (env w) n = false) ->
  fst (getStoredBaseUrl w) = Returns (JStr f) ->
  let w' := snd (run w) in
  let next := match settle (JStr f)
                      (network (env w) (requests w) (request_to method path data f)) with
              | Returns _ => f
              | Throws _ => alternate f
              end in
  fst (getStoredBaseUrl w') = Returns (JStr next) /\
  (exists tail,
     trace (snd (run2 w'))
     = trace w' ++ EvRequest (request_to method2 path2 data2 next) :: tail) /\
  (f ∈ DEFAULTS -> alternate (alternate f) = f).
Proof.
  intros Hrun Hrun2 Hok Hread w' next.
  apply stored_base_of_read in Hread.
  assert (Hf : truthy (JStr f) = true) by (rewrite <- Hread; apply stored_base_truthy).
  assert (Hnext : stored_base w' = JStr next).
  { unfold w', next. rewrite (entry_point_run run method path data w Hrun).
    destruct (settle (JStr f) _) as [r|e1] eqn:Hs.
    - rewrite (wxRequest_first w method path data f r Hread Hs).
      unfold persisted. rewrite (settle_base _ _ _ Hs), Hf. cbn [snd].
      apply stored_base_written; [exact Hok|exact Hf].
    - rewrite (wxRequest_retry w method path data f e1 Hread Hs).
      assert (Hswitched : stored_base (after_retry w (request_to method path data) f)
                          = JStr (alternate f)).
      { unfold after_retry.
        change (stored_base (written "BASE_URL" (JStr (alternate f))
                               (after_first w (request_to method path data) f))
                = JStr (alternate f)).
        apply stored_base_written; [exact Hok|apply alternate_truthy]. }
      destruct (settle (JStr (alternate f)) _) as [r2|e2] eqn:Hs2;
        unfold persisted; cbn [snd]; [|exact Hswitched].
      rewrite (settle_base _ _ _ Hs2), alternate_truthy.
      apply stored_base_written; [exact Hok|apply alternate_truthy]. }
  split; [rewrite getStoredBaseUrl_run, Hnext; reflexivity|].
  split; [|apply alternate_involutive_on_pool].
  apply first_request_goes_to_stored_base; assumption.
Qed.

Lemma next_call_starts_with_the_remembered_endpoint_witness :
  fst (getStoredBaseUrl (snd (post (js "/chat") JNull (initial_world primary_down))))
  = Returns (JStr (alternate DEFAULTS_0)).
Proof.
  apply (next_call_starts_with_the_remembered_endpoint
           (initial_world primary_down) (post (js "/chat") JNull) ping
           POST GET (js "/chat") (js "/health") JNull JUndefined DEFAULTS_0).
  - left. split; reflexivity.
  - right. repeat split; reflexivity.
  - intros n. reflexivity.
  - reflexivity.
Defined.

(** ** Which stored keys a flow writes *)

Lemma confined_refl (keys : list string) (w : World) : confined keys w w.
Proof.
  split; [reflexivity|]. split; [reflexivity|].
  exists []. split; [symmetry; apply app_nil_r|]. intros k v H. inversion H.
Qed.

Lemma confined_trans (keys : list string) (w w1 w2 : World) :
  confined keys w w1 -> confined keys w1 w2 -> confined keys w w2.
Proof.
  intros (He & Hk & evs & Ht & Hev) (He' & Hk' & evs' & Ht' & Hev').
  split; [congruence|]. split.
  - intros k Hn. rewrite (Hk' k Hn). apply Hk. exact Hn.
  - exists (evs ++ evs'). split; [rewrite Ht', Ht, app_assoc; reflexivity|].
    intros k v H. apply elem_of_app in H as [H|H]; eauto.
Qed.

Lemma confined_weaken (keys keys' : list string) (w w' : World) :
  (forall k, k ∈ keys -> k ∈ keys') -> confined keys w w' -> confined keys' w w'.
Proof.
  intros Hsub (He & Hk & evs & Ht & Hev).
  split; [exact He|]. split.
  - intros k Hn. apply Hk. intros Hin. apply Hn, Hsub, Hin.
  - exists evs. split; [exact Ht|]. intros k v H. apply Hsub. eauto.
Qed.

(** A step that changes neither the store nor the oracles and adds events
    that are not writes. *)
Lemma confined_quiet (keys : list string) (w w' : World) (evs : list Event) :
  env w' = env w -> storage w' = storage w -> trace w' = trace w ++ evs ->
  (forall k v, EvSetStorage k v ∉ evs) ->
  confined keys w w'.
Proof.
  intros He Hs Ht Hev. split; [exact He|]. split; [intros k _; rewrite Hs; reflexivity|].
  exists evs. split; [exact Ht|]. intros k v H. destruct (Hev k v H).
Qed.

Lemma confined_same (keys : list string) (w w' : World) :
  env w' = env w -> storage w' = storage w -> trace w' = trace w -> confined keys w w'.
Proof.
  intros He Hs Ht. apply (confined_quiet keys w w' []); try assumption.
  - rewrite Ht, app_nil_r. reflexivity.
  - intros k v H. inversion H.
Qed.

Lemma confined_written (key : string) (v : JSVal) (w : World) :
  confined [key] w (written key v w).
Proof.
  unfold written. split; [reflexivity|]. split.
  - intros k Hn. cbn [storage with_storage with_event].
    destruct (storage_fault _ _); cbn [id]; [reflexivity|].
    apply lookup_insert_ne. intros ->. apply Hn. set_solver.
  - exists [EvSetStorage key v]. split; [reflexivity|].
    intros k v' H. apply list_elem_of_singleton in H. injection H as -> _. set_solver.
Qed.

Lemma confined_executor (nr nc : nat) (w w' : World) :
  executor_frame nr nc w w' -> confined ["BASE_URL"] w w'.
Proof.
  intros (He & _ & _ & _ & _ & Hk & evs & Ht & Hev).
  split; [exact He|]. split.
  - intros k Hn. apply Hk. intros ->. apply Hn. set_solver.
  - exists evs. split; [exact Ht|]. intros k v H.
    rewrite Forall_forall in Hev. destruct (Hev _ H) as [[r Hr]|[v' Hv']];
      [discriminate|]. injection Hv' as -> _. set_solver.
Qed.

Lemma confined_post (path : jsstring) (data : JSVal) (w : World) :
  confined ["BASE_URL"] w (snd (post path data w)).
Proof.
  rewrite post_run.
  destruct (withFallback_frame POST path data w) as (nr & nc & Hf & _).
  destruct (_wxRequest POST path data w) as [r w1]. cbn [snd] in Hf.
  destruct (persisted_frame nr nc w w1 r Hf) as (nc' & Hf' & _).
  exact (confined_executor _ _ _ _ Hf').
Qed.

Lemma clock_reads_quiet (keys : list string) (n : nat) (w : World) :
  confined keys w (Nat.iter n with_clock_read w).
Proof.
  destruct (clock_reads_frame n w) as (He & Hs & _ & Ht & _).
  apply (confined_quiet keys w _ []); try assumption.
  - rewrite Ht, app_nil_r. reflexivity.
  - intros k v H. inversion H.
Qed.

Lemma confined_saveHistoryItem (item : JSVal) (w : World) :
  confined ["learning_history"] w (snd (_saveHistoryItem item w)).
Proof.
  rewrite saveHistoryItem_run. cbn [snd].
  destruct (storage_fault (env w) (storage_calls w));
    [apply confined_same; reflexivity|].
  destruct (history_value w); try (apply confined_same; reflexivity).
  eapply confined_trans;
    [|apply (confined_written "learning_history" _ (with_clock_read (with_storage id w)))].
  apply confined_same; reflexivity.
Qed.

Lemma confined_saveHistory (items : list JSVal) (w : World) :
  confined ["learning_history"] w (snd (_saveHistory items w)).
Proof.
  rewrite saveHistory_run. cbn [snd].
  destruct (storage_fault (env w) (storage_calls w));
    [apply confined_same; reflexivity|].
  eapply confined_trans; [|apply confined_written].
  eapply confined_trans; [|apply (clock_reads_quiet _ (length items) (with_storage id w))].
  apply confined_same; reflexivity.
Qed.

(** ** What the suggestion flow shows and saves *)




(** ** What a send does to the conversation *)

Lemma onSend_cases (w : World) (c : N) (t : jsstring) :
  trim (inputText w) = c :: t ->
  onSend w =
    (Returns tt,
     with_sending false
       (match post (js "/chat") (chat_request (sessionId w) (c :: t))
                (sending_world w (c :: t)) with
        | (Returns res, w1) => send_answered res w1
        | (Throws _, w1) => send_failed w1
        end)).
Proof.
  intros Htrim.
  destruct (post (js "/chat") (chat_request (sessionId w) (c :: t))
              (sending_world w (c :: t))) as [[res|e] w1] eqn:Hpost.
  - exact (onSend_run w w1 res c t Htrim Hpost).
  - unfold onSend. rewrite Htrim.
    unfold bind at 1. rewrite addUser_run.
    unfold bind at 1, modify at 1. unfold finally, try_catch, bind at 1.
    unfold sending_world in Hpost. rewrite addUser_run in Hpost. cbn [snd] in Hpost.
    rewrite Hpost.
    unfold bind at 1, console_error, modify.
    unfold bind at 1. rewrite getStoredBaseUrl_run.
    unfold bind at 1, wx_showToast, modify. reflexivity.
Qed.

Lemma post_frame (path : jsstring) (data : JSVal) (w : World) :
  exists nr nc, executor_frame nr nc w (snd (post path data w)).
Proof.
  rewrite post_run.
  destruct (withFallback_frame POST path data w) as (nr & nc & Hf & _).
  destruct (_wxRequest POST path data w) as [r w1]. cbn [snd] in Hf.
  destruct (persisted_frame nr nc w w1 r Hf) as (nc' & Hf' & _). eauto.
Qed.

Lemma clock_reads_same_page (n : nat) (w : World) :
  same_page w (Nat.iter n with_clock_read w).
Proof.
  induction n as [|n IH]; [repeat split|].
  rewrite Nat.iter_succ. exact IH.
Qed.

Lemma saveHistory_same_page (items : list JSVal) (w : World) :
  same_page w (snd (_saveHistory items w)).
Proof.
  rewrite saveHistory_run. cbn [snd].
  destruct (storage_fault (env w) (storage_calls w)); [repeat split|].
  exact (clock_reads_same_page (length items) (with_storage id w)).
Qed.

Lemma message_ids_differ (a b : Z) :
  js "m" ++ dec a ++ js "u" <> js "m" ++ dec b ++ js "b".
Proof.
  change (js "u") with [117]. change (js "b") with [98].
  rewrite !app_assoc. intros H. apply app_inj_tail in H as [_ H]. discriminate.
Qed.

(** X6. [onSend] never throws. With a blank input it changes nothing: no
    message, no request. With any other input it adds exactly two messages
    to the conversation, whatever the network and the storage do: the
    user's, whose text is the trimmed input, then one of the bot (the
    cleaned reply, or the apology when the request failed), with different
    ids even when the clock has not advanced; it empties the input and
    leaves [sending] false. *)
Theorem send_adds_the_message_and_one_answer (w : World) :
  fst (onSend w) = Returns tt /\
  (trim (inputText w) = [] -> snd (onSend w) = w) /\
  (trim (inputText w) <> [] ->
   exists mu mb,
     messages (snd (onSend w)) = messages w ++ [mu; mb] /\
     role mu = user /\ text mu = trim (inputText w) /\ role mb = bot /\
     msg_id mu <> msg_id mb /\
     lastMessageId (snd (onSend w)) = js "msg-" ++ msg_id mb /\
     inputText (snd (onSend w)) = [] /\ sending (snd (onSend w)) = false).
Proof.
  destruct (trim (inputText w)) as [|c t] eqn:Htrim.
  - unfold onSend. rewrite Htrim. repeat split. intros H. contradiction.
  - rewrite (onSend_cases w c t Htrim). cbn [fst snd].
    split; [reflexivity|]. split; [discriminate|]. intros _.
    destruct (post_frame (js "/chat") (chat_request (sessionId w) (c :: t))
                (sending_world w (c :: t)))
      as (nr & nc & _ & _ & (_ & Hm & _ & Hi & _) & _).
    destruct (post (js "/chat") (chat_request (sessionId w) (c :: t))
                (sending_world w (c :: t))) as [[res|e] w1]; cbn [snd] in Hm, Hi.
    + unfold send_answered. rewrite addBot_run. cbn [snd].
      eexists _, {| msg_id := _; role := bot; text := _ |}.
      assert (Hpage : forall w3, same_page
                        (with_message
                           {| msg_id := js "m" ++ dec (clock (env w1) (clock_reads w1)) ++ js "b";
                              role := bot;
                              text := trim (strip_learned (reply_or (js "No reply") res)) |}
                           (with_clock_read w1)) w3 ->
                messages (with_sending false w3)
                = messages w ++
                    [{| msg_id := js "m" ++ dec (clock (env w) (clock_reads w)) ++ js "u";
                        role := user; text := c :: t |};
                     {| msg_id := js "m" ++ dec (clock (env w1) (clock_reads w1)) ++ js "b";
                        role := bot;
                        text := trim (strip_learned (reply_or (js "No reply") res)) |}] /\
                lastMessageId (with_sending false w3)
                = js "msg-" ++ js "m" ++ dec (clock (env w1) (clock_reads w1)) ++ js "b" /\
                inputText (with_sending false w3) = []).
      { intros w3 (_ & Hm3 & Hl3 & Hi3 & _).
        cbn [messages lastMessageId inputText with_sending].
        rewrite Hm3, Hl3, Hi3. cbn [messages lastMessageId inputText with_message with_clock_read].
        rewrite Hm, Hi. unfold sending_world. rewrite addUser_run.
        cbn [snd messages inputText with_sending with_input with_message with_clock_read].
        rewrite <- app_assoc. repeat split. }
      destruct (learned_items res) as [[x rest]|].
      * destruct (Hpage _ (saveHistory_same_page (x :: rest) _)) as (H1 & H2 & H3).
        split; [exact H1|]. repeat split; try assumption. apply message_ids_differ.
      * destruct (Hpage _ ltac:(repeat split)) as (H1 & H2 & H3).
        split; [exact H1|]. repeat split; try assumption. apply message_ids_differ.
    + unfold send_failed. rewrite addBot_run. cbn [snd].
      eexists _, {| msg_id := _; role := bot; text := _ |}.
      cbn [messages lastMessageId inputText sending with_sending with_message with_clock_read
             with_event with_storage].
      rewrite Hm, Hi. unfold sending_world. rewrite addUser_run.
      cbn [snd messages inputText with_sending with_input with_message with_clock_read].
      rewrite <- app_assoc. split; [reflexivity|].
      repeat split. apply message_ids_differ.
Qed.

Lemma sending_world_store (w : World) (t : jsstring) :
  env (sending_world w t) = env w /\ storage (sending_world w t) = storage w /\
  storage_calls (sending_world w t) = storage_calls w /\
  requests (sending_world w t) = requests w /\ trace (sending_world w t) = trace w /\
  stored_base (sending_world w t) = stored_base w.
Proof. unfold sending_world. rewrite addUser_run. repeat split. Qed.

(** X7. When both attempts of a send fail, with a storage that works, the
    chat answers with the apology and shows one toast, and the endpoint the
    toast names is the alternate, the one the failed retry went to: the
    executor had already switched the store to it. The trace is the first
    request, the switch, the retry, the logged error and the toast. *)
Theorem failed_send_names_the_alternate
    (w : World) (c : N) (t f : jsstring) (e1 e2 : Exn) :
  trim (inputText w) = c :: t ->
  (forall n, storage_fault (env w) n = false) ->
  fst (getStoredBaseUrl w) = Returns (JStr f) ->
  let rq := request_to POST (js "/chat") (chat_request (sessionId w) (c :: t)) in
  settle (JStr f) (network (env w) (requests w) (rq f)) = Throws e1 ->
  settle (JStr (alternate f)) (network (env w) (S (requests w)) (rq (alternate f)))
    = Throws e2 ->
  displayed (snd (onSend w)) = Some (js "Sorry, I had trouble reaching the server.") /\
  trace (snd (onSend w))
  = trace w ++ [EvRequest (rq f);
                EvSetStorage "BASE_URL" (JStr (alternate f));
                EvRequest (rq (alternate f));
                EvConsoleError (js "chat error");
                EvToast (js "Request failed (" ++ alternate f ++ js ")")].
Proof.
  intros Htrim Hok Hread rq H1 H2.
  apply stored_base_of_read in Hread.
  destruct (sending_world_store w (c :: t)) as (He & Hs & Hc & Hr & Ht & Hb).
  rewrite (onSend_cases w c t Htrim), post_run.
  rewrite (wxRequest_retry (sending_world w (c :: t)) POST (js "/chat")
             (chat_request (sessionId w) (c :: t)) f e1)
    by (rewrite ?He, ?Hr, ?Hb; assumption).
  rewrite He, Hr. fold rq. rewrite H2. unfold persisted. cbn [snd].
  assert (Hbase : stored_base (with_event (EvConsoleError (js "chat error"))
                                 (after_retry (sending_world w (c :: t)) rq f))
                  = JStr (alternate f)).
  { unfold after_retry.
    change (stored_base (written "BASE_URL" (JStr (alternate f))
                           (after_first (sending_world w (c :: t)) rq f))
            = JStr (alternate f)).
    apply stored_base_written; [|apply alternate_truthy].
    intros n. cbn [env after_first with_request with_event with_storage].
    rewrite He. apply Hok. }
  unfold send_failed. rewrite Hbase, addBot_run. cbn [snd ToString].
  split.
  - unfold displayed. cbn [messages with_sending with_message]. rewrite last_snoc. reflexivity.
  - unfold after_retry, after_first, written.
    cbn [trace with_sending with_message with_clock_read with_event with_storage with_request].
    rewrite Ht, <- !app_assoc. reflexivity.
Qed.

Lemma failed_send_names_the_alternate_witness :
  displayed (snd (onSend (with_input (js " hi ") (initial_world both_down))))
  = Some (js "Sorry, I had trouble reaching the server.").
Proof.
  assert (Htrim : trim (inputText (with_input (js " hi ") (initial_world both_down)))
                  = 104 :: js "i") by (vm_compute; reflexivity).
  exact (proj1 (failed_send_names_the_alternate
                  (with_input (js " hi ") (initial_world both_down)) 104 (js "i")
                  DEFAULTS_0 (Rejected (JObj [(js "errMsg", JStr (js "request:fail"))]))
                  (HttpError (js "HTTP 503: busy"))
                  Htrim (fun n => eq_refl) eq_refl eq_refl eq_refl)).
Defined.

(** ** What the chat flow saves *)

Lemma history_log_key (w w' : World) :
  storage w' !! "learning_history" = storage w !! "learning_history" ->
  history_log w' = history_log w.
Proof. intros H. unfold history_log, history_value. rewrite H. reflexivity. Qed.



(** ** The stored keys the two flows write *)

Lemma history_key_in_both (k : string) :
  k ∈ ["learning_history"] -> k ∈ ["BASE_URL"; "learning_history"].
Proof. intros Hk. apply list_elem_of_singleton in Hk as ->. right. left. Qed.

Lemma confined_show_and_save (item : JSVal) (w : World) :
  confined ["BASE_URL"; "learning_history"] w (snd (show_and_save item w)).
Proof.
  rewrite show_and_save_run. cbn [snd].
  apply (confined_trans _ w (with_suggestion item w)); [apply confined_same; reflexivity|].
  apply (confined_weaken ["learning_history"]); [apply history_key_in_both|].
  apply confined_saveHistoryItem.
Qed.

Lemma confined_post_both (path : jsstring) (data : JSVal) (w : World) :
  confined ["BASE_URL"; "learning_history"] w (snd (post path data w)).
Proof.
  apply (confined_weaken ["BASE_URL"]); [|apply confined_post].
  intros k Hk. apply list_elem_of_singleton in Hk as ->. left.
Qed.

Lemma confined_then_same (keys : list string) (w w3 w4 : World) :
  env w4 = env w3 -> storage w4 = storage w3 -> trace w4 = trace w3 ->
  confined keys w w3 -> confined keys w w4.
Proof.
  intros He Hs Ht H. eapply confined_trans; [exact H|]. apply confined_same; assumption.
Qed.

Lemma not_a_write (ev : Event) (k : string) (v : JSVal) :
  (forall k' v', ev <> EvSetStorage k' v') -> EvSetStorage k v ∉ [ev].
Proof. intros H Hin. apply list_elem_of_singleton in Hin. exact (H k v (eq_sym Hin)). Qed.

Lemma confined_fetchSuggestion (sid : JSVal) (w : World) :
  confined ["BASE_URL"; "learning_history"] w (snd (fetchSuggestion sid w)).
Proof.
  rewrite fetchSuggestion_run.
  pose proof (confined_post_both (js "/chat") (suggestion_request sid) w) as Hpost.
  destruct (post (js "/chat") (suggestion_request sid) w) as [[res|e] w1]; cbn [snd] in *.
  - eapply confined_trans; [exact Hpost|].
    destruct (learned_items res) as [[item rest]|]; [apply confined_show_and_save|].
    rewrite suggest_from_reply_run.
    destruct (tagged_item _); [apply confined_show_and_save|].
    destruct (4 <=? _)%nat; [apply confined_show_and_save|]. cbn [snd].
    apply (confined_quiet _ w1 _ [EvToast PARSE_FAILED]); try reflexivity.
    intros k v. apply not_a_write. discriminate.
  - eapply confined_trans; [exact Hpost|]. cbn [snd].
    apply (confined_quiet _ w1 _ [EvConsoleError (js "fetchSuggestion error")]);
      try reflexivity.
    intros k v. apply not_a_write. discriminate.
Qed.

Lemma confined_onSend (w : World) :
  confined ["BASE_URL"; "learning_history"] w (snd (onSend w)).
Proof.
  destruct (trim (inputText w)) as [|c t] eqn:Htrim.
  - unfold onSend. rewrite Htrim. apply confined_refl.
  - rewrite (onSend_cases w c t Htrim). cbn [snd].
    destruct (sending_world_store w (c :: t)) as (He & Hs & _ & _ & Ht & _).
    eapply confined_trans; [apply (confined_same _ w (sending_world w (c :: t))); assumption|].
    pose proof (confined_post_both (js "/chat") (chat_request (sessionId w) (c :: t))
                  (sending_world w (c :: t))) as Hpost.
    destruct (post (js "/chat") (chat_request (sessionId w) (c :: t))
                (sending_world w (c :: t))) as [[res|e] w1]; cbn [snd] in *;
      (eapply confined_trans; [exact Hpost|]).
    + apply (confined_then_same _ w1 (send_answered res w1)); try reflexivity.
      unfold send_answered. rewrite addBot_run. cbn [snd].
      destruct (learned_items res) as [[x rest]|]; [|apply confined_same; reflexivity].
      match goal with
      | |- confined _ _ (snd (_saveHistory _ ?w2)) =>
          apply (confined_trans _ w1 w2); [apply confined_same; reflexivity|]
      end.
      apply (confined_weaken ["learning_history"]); [apply history_key_in_both|].
      apply confined_saveHistory.
    + apply (confined_then_same _ w1 (send_failed w1)); try reflexivity.
      unfold send_failed. rewrite addBot_run. cbn [snd].
      apply (confined_quiet _ w1 _
               [EvConsoleError (js "chat error");
                EvToast (js "Request failed (" ++
                         ToString (stored_base
                                     (with_event (EvConsoleError (js "chat error")) w1))
                         ++ js ")")]); try reflexivity.
      * cbn [trace with_message with_clock_read with_event with_storage].
        rewrite <- app_assoc. reflexivity.
      * intros k v Hin. apply elem_of_cons in Hin as [Hin|Hin]; [discriminate|].
        apply list_elem_of_singleton in Hin. discriminate.
Qed.

(** X9. The suggestion flow and the chat flow write to two stored keys only,
    [BASE_URL] and [learning_history]: whatever the server answers and
    whatever the storage does, every other key (the session id among them)
    holds after [fetchSuggestion] and after [onSend] what it held before,
    and every write in the trace they add is to one of the two keys. *)
Theorem flows_write_two_keys_only (w : World) (sid : JSVal) :
  confined ["BASE_URL"; "learning_history"] w (snd (fetchSuggestion sid w)) /\
  confined ["BASE_URL"; "learning_history"] w (snd (onSend w)) /\
  storage (snd (fetchSuggestion sid w)) !! "session_id" = storage w !! "session_id" /\
  storage (snd (onSend w)) !! "session_id" = storage w !! "session_id".
Proof.
  pose proof (confined_fetchSuggestion sid w) as Hfetch.
  pose proof (confined_onSend w) as Hsend.
  assert (Hkey : "session_id" ∉ ["BASE_URL"; "learning_history"]).
  { intros Hin. apply elem_of_cons in Hin as [Hin|Hin]; [discriminate|].
    apply list_elem_of_singleton in Hin. discriminate. }
  split; [exact Hfetch|]. split; [exact Hsend|].
  split; [apply Hfetch|apply Hsend]; exact Hkey.
Qed.

(** ** The history log across the flows *)

Lemma has_ts_stamp (item : JSVal) (now : Z) : has_ts (stamp item now).
Proof.
  unfold stamp. eexists _, now. split; [reflexivity|]. apply lookup_set_prop_eq.
Qed.

Lemma Forall_has_ts_stamps (clk : nat -> Z) (n : nat) (items : list JSVal) :
  Forall has_ts (stamps clk n items).
Proof.
  revert n. induction items as [|it rest IH]; intros n; cbn [stamps]; constructor;
    [apply has_ts_stamp|apply IH].
Qed.

Lemma history_ok_key (w w' : World) :
  storage w' !! "learning_history" = storage w !! "learning_history" ->
  history_ok w -> history_ok w'.
Proof.
  intros Hk (l & Hl & Hn & Hts). exists l. rewrite (history_log_key w w' Hk). auto.
Qed.

Lemma history_ok_written (l : list JSVal) (w : World) :
  Forall has_ts l -> history_ok w ->
  history_ok (written "learning_history" (JArr (take 200 l)) w).
Proof.
  intros Hl Hw. destruct (storage_fault (env w) (storage_calls w)) eqn:E.
  - apply (history_ok_key w); [|exact Hw]. unfold written. rewrite E. reflexivity.
  - exists (take 200 l). split; [apply history_log_written; exact E|].
    split; [apply take_200_bound|apply Forall_take; exact Hl].
Qed.

Lemma history_ok_saveHistoryItem (item : JSVal) (w : World) :
  history_ok w -> history_ok (snd (_saveHistoryItem item w)).
Proof.
  intros Hw. pose proof Hw as (old & Hold & _ & Hts).
  rewrite saveHistoryItem_run. cbn [snd].
  destruct (storage_fault (env w) (storage_calls w));
    [apply (history_ok_key w); [reflexivity|exact Hw]|].
  rewrite (history_log_value w old Hold).
  apply history_ok_written; [|apply (history_ok_key w); [reflexivity|exact Hw]].
  constructor; [apply has_ts_stamp|exact Hts].
Qed.

Lemma history_ok_saveHistory (items : list JSVal) (w : World) :
  history_ok w -> history_ok (snd (_saveHistory items w)).
Proof.
  intros Hw. pose proof Hw as (old & Hold & _ & Hts).
  rewrite saveHistory_run. cbn [snd].
  destruct (storage_fault (env w) (storage_calls w));
    [apply (history_ok_key w); [reflexivity|exact Hw]|].
  rewrite (history_log_value w old Hold). cbn [concat_arg].
  apply history_ok_written.
  - apply Forall_app_2; [apply Forall_has_ts_stamps|exact Hts].
  - apply (history_ok_key w); [|exact Hw].
    destruct (clock_reads_frame (length items) (with_storage id w)) as (_ & Hs & _).
    rewrite Hs. reflexivity.
Qed.

Lemma confined_history_ok (w w' : World) :
  confined ["BASE_URL"] w w' -> history_ok w -> history_ok w'.
Proof.
  intros (_ & Hk & _). apply history_ok_key. apply Hk.
  intros Hin. apply list_elem_of_singleton in Hin. discriminate.
Qed.

(** X10. From a log of at most 200 entries that all carry a numeric [ts]
    (the empty store among them), every flow leaves such a log, whatever the
    server sends and whatever the storage does: [fetchSuggestion], [onSend]
    and [onClear] keep the cap and never store an entry without a [ts], not
    even when the item the server sent is [null], a number or a string. *)
Theorem flows_keep_the_history_well_formed (w : World) (sid : JSVal) :
  history_ok w ->
  history_ok (snd (fetchSuggestion sid w)) /\
  history_ok (snd (onSend w)) /\
  history_ok (snd (onClear w)).
Proof.
  intros Hw. split; [|split].
  - rewrite fetchSuggestion_run.
    pose proof (confined_history_ok _ _
                  (confined_post (js "/chat") (suggestion_request sid) w) Hw) as H1.
    assert (Hshow : forall item w1, history_ok w1 -> history_ok (snd (show_and_save item w1))).
    { intros item w1 Hw1. rewrite show_and_save_run. cbn [snd].
      apply history_ok_saveHistoryItem. apply (history_ok_key w1); [reflexivity|exact Hw1]. }
    destruct (post (js "/chat") (suggestion_request sid) w) as [[res|e] w1]; cbn [snd] in *;
      [|apply (history_ok_key w1); [reflexivity|exact H1]].
    destruct (learned_items res) as [[item rest]|]; [apply Hshow; exact H1|].
    rewrite suggest_from_reply_run.
    destruct (tagged_item _); [apply Hshow; exact H1|].
    destruct (4 <=? _)%nat; [apply Hshow; exact H1|].
    apply (history_ok_key w1); [reflexivity|exact H1].
  - destruct (trim (inputText w)) as [|c t] eqn:Htrim.
    + unfold onSend. rewrite Htrim. exact Hw.
    + rewrite (onSend_cases w c t Htrim). cbn [snd].
      assert (H0 : history_ok (sending_world w (c :: t))).
      { apply (history_ok_key w); [|exact Hw].
        destruct (sending_world_store w (c :: t)) as (_ & Hs & _). rewrite Hs. reflexivity. }
      pose proof (confined_history_ok _ _
                    (confined_post (js "/chat") (chat_request (sessionId w) (c :: t))
                       (sending_world w (c :: t))) H0) as H1.
      destruct (post (js "/chat") (chat_request (sessionId w) (c :: t))
                  (sending_world w (c :: t))) as [[res|e] w1]; cbn [snd] in *.
      * apply (history_ok_key (send_answered res w1)); [reflexivity|].
        unfold send_answered. rewrite addBot_run. cbn [snd].
        destruct (learned_items res) as [[x rest]|];
          [apply history_ok_saveHistory|]; (apply (history_ok_key w1); [reflexivity|exact H1]).
      * apply (history_ok_key w1); [reflexivity|exact H1].
  - rewrite onClear_run. cbn [snd].
    apply (history_ok_written [] w); [constructor|exact Hw].
Qed.

Lemma flows_keep_the_history_well_formed_witness :
  history_ok (snd (fetchSuggestion (JStr (js "s"))
                     (initial_world (replying (js "<learned_json>[null]</learned_json>"))))).
Proof.
  apply (flows_keep_the_history_well_formed
           (initial_world (replying (js "<learned_json>[null]</learned_json>")))
           (JStr (js "s"))).
  exists []. split; [reflexivity|]. split; [cbn; lia|constructor].
Defined.

(** ** A reply in the format the suggestion request asks for *)










Lemma split_segment (sep : N) (a s : jsstring) :
  Forall (fun c => c <> sep) a -> split sep (a ++ sep :: s) = a :: split sep s.
Proof.
  induction 1 as [|c a Hc _ IH].
  - cbn [app split]. rewrite N.eqb_refl. reflexivity.
  - cbn [app split]. rewrite IH.
    destruct (N.eqb_spec c sep); [contradiction|reflexivity].
Qed.

Lemma split_last_segment (sep : N) (a : jsstring) :
  Forall (fun c => c <> sep) a -> split sep a = [a].
Proof.
  induction 1 as [|c a Hc _ IH]; [reflexivity|].
  cbn [split]. rewrite IH.
  destruct (N.eqb_spec c sep); [contradiction|reflexivity].
Qed.











(** ** Clearing the memory and starting a new session *)

Lemma onClearMemory_run (p : ChatPage) (c : N) (s : jsstring) :
  sessionId (data p) = c :: s ->
  onClearMemory p =
    {| data :=
         match post (js "/reset") (reset_request (c :: s)) (data p) with
         | (Returns _, w1) => with_no_messages w1
         | (Throws _, w1) =>
             with_event
               (EvToast (js "Reset failed (" ++
                         ToString (stored_base
                                     (with_event (EvConsoleError (js "reset error")) w1))
                         ++ js ")"))
               (with_storage id (with_event (EvConsoleError (js "reset error")) w1))
         end;
       clearing := false;
       sessionShort := sessionShort p |}.
Proof.
  intros Es. unfold onClearMemory. rewrite Es. f_equal.
  unfold try_catch, bind at 1.
  destruct (post (js "/reset") (reset_request (c :: s)) (data p)) as [[res|e] w1];
    [reflexivity|].
  unfold bind, console_error, modify, wx_showToast.
  rewrite getStoredBaseUrl_run. reflexivity.
Qed.

(** X12. [onClearMemory] with a session posts the reset request and
    empties the chat exactly when the request succeeds; when both attempts
    fail it keeps the messages, logs the error and shows one toast that
    names the stored endpoint. Either way [clearing] ends [false], the
    session stays, and nothing is written but [BASE_URL]: the learning
    history and the stored session id are as before. *)
Theorem clear_memory_empties_the_chat_on_success_only (p : ChatPage) :
  sessionId (data p) <> [] ->
  let r := post (js "/reset") (reset_request (sessionId (data p))) (data p) in
  let p' := onClearMemory p in
  clearing p' = false /\ sessionShort p' = sessionShort p /\
  sessionId (data p') = sessionId (data p) /\
  confined ["BASE_URL"] (data p) (data p') /\
  match fst r with
  | Returns _ => messages (data p') = [] /\ trace (data p') = trace (snd r)
  | Throws _ =>
      messages (data p') = messages (data p) /\
      trace (data p') =
        trace (snd r) ++
        [EvConsoleError (js "reset error");
         EvToast (js "Reset failed (" ++ ToString (stored_base (snd r)) ++ js ")")]
  end.
Proof.
  intros Hsid r p'. subst r p'.
  destruct (sessionId (data p)) as [|c s] eqn:Es; [contradiction|].
  rewrite (onClearMemory_run p c s Es). cbn [data clearing sessionShort].
  destruct (post_frame (js "/reset") (reset_request (c :: s)) (data p))
    as (nr & nc & _ & _ & (_ & Hm & _ & _ & _ & Hid) & _).
  rewrite Es in Hid.
  pose proof (confined_post (js "/reset") (reset_request (c :: s)) (data p)) as Hc.
  destruct (post (js "/reset") (reset_request (c :: s)) (data p)) as [[res|e] w1];
    cbn [fst snd] in *.
  - split; [reflexivity|]. split; [reflexivity|]. split; [exact Hid|].
    split; [|split; reflexivity].
    apply (confined_then_same _ (data p) w1); try reflexivity. exact Hc.
  - split; [reflexivity|]. split; [reflexivity|]. split; [exact Hid|].
    split; [|split; [exact Hm|]].
    + eapply confined_trans; [exact Hc|].
      apply (confined_quiet _ w1 _
               [EvConsoleError (js "reset error");
                EvToast (js "Reset failed (" ++
                         ToString (stored_base
                                     (with_event (EvConsoleError (js "reset error")) w1))
                         ++ js ")")]); try reflexivity.
      * cbn [trace with_event with_storage]. rewrite <- app_assoc. reflexivity.
      * intros k v Hin. apply elem_of_cons in Hin as [Hin|Hin]; [discriminate|].
        apply list_elem_of_singleton in Hin. discriminate.
    + cbn [trace with_event with_storage]. rewrite <- app_assoc. reflexivity.
Qed.

Lemma clear_memory_empties_the_chat_on_success_only_witness :
  messages (data (onClearMemory
                    {| data := snd (onSend (with_input (js "hi") (initial_world (replying (js "yo")))));
                       clearing := false; sessionShort := js "424242" |})) = [].
Proof.
  pose proof (clear_memory_empties_the_chat_on_success_only
                {| data := snd (onSend (with_input (js "hi") (initial_world (replying (js "yo")))));
                   clearing := false; sessionShort := js "424242" |}) as H.
  cbv zeta in H.
  assert (Hsid : sessionId (data {| data := snd (onSend (with_input (js "hi")
                                                           (initial_world (replying (js "yo")))));
                                    clearing := false; sessionShort := js "424242" |}) <> [])
    by (vm_compute; discriminate).
  destruct (H Hsid) as (_ & _ & _ & _ & Hm).
  assert (Hpost : fst (post (js "/reset")
                         (reset_request
                            (sessionId (data {| data := snd (onSend (with_input (js "hi")
                                                  (initial_world (replying (js "yo")))));
                                                clearing := false; sessionShort := js "424242" |})))
                         (data {| data := snd (onSend (with_input (js "hi")
                                            (initial_world (replying (js "yo")))));
                                  clearing := false; sessionShort := js "424242" |}))
                  = Returns (JObj [(js "reply", JStr (js "yo"))]))
    by (vm_compute; reflexivity).
  rewrite Hpost in Hm. exact (proj1 Hm).
Defined.

Lemma js_cons (a : ascii) (s : string) : js (String a s) = N_of_ascii a :: js s.
Proof. reflexivity. Qed.

Lemma uint_chars_no_hyphen (d : Decimal.uint) :
  Forall (fun c => c <> 45) (js (NilEmpty.string_of_uint d)).
Proof.
  induction d; cbn [NilEmpty.string_of_uint]; [constructor|..];
    (rewrite js_cons; constructor; [discriminate|assumption]).
Qed.

Lemma dec_nonnegative (z : Z) :
  (0 <= z)%Z -> dec z <> [] /\ Forall (fun c => c <> 45) (dec z).
Proof.
  intros Hz. unfold dec.
  destruct z as [|p|p]; [split; [discriminate|repeat constructor; discriminate]| |lia].
  cbn [Z.to_int NilZero.string_of_int].
  pose proof (uint_chars_no_hyphen (Pos.to_uint p)) as Hd.
  unfold NilZero.string_of_uint.
  destruct (Pos.to_uint p) eqn:E;
    try (split; [discriminate|exact Hd]).
  split; [discriminate|repeat constructor; discriminate].
Qed.

Lemma short_of_generated (now draw : Z) :
  (0 <= now)%Z -> (0 <= draw)%Z -> _short (dec now ++ 45 :: dec draw) = dec draw.
Proof.
  intros Hn Hd.
  destruct (dec_nonnegative now Hn) as (Hn1 & Hn2).
  destruct (dec_nonnegative draw Hd) as (Hd1 & Hd2).
  unfold _short.
  rewrite (split_segment 45 (dec now) (dec draw) Hn2), (split_last_segment 45 (dec draw) Hd2).
  destruct (dec now) as [|a n]; [contradiction|]. cbn [app].
  destruct (dec draw) as [|b d]; [contradiction|]. reflexivity.
Qed.

Lemma onNewSession_run (draw : Z) (p : ChatPage) :
  onNewSession draw p =
    let newId := dec (clock (env (data p)) (clock_reads (data p))) ++ 45 :: dec draw in
    let w1 := with_event (EvSetStorage "session_id" (JStr newId)) (with_clock_read (data p)) in
    if storage_fault (env (data p)) (storage_calls (data p))
    then (Throws StorageError,
          {| data := with_storage id w1; clearing := clearing p;
             sessionShort := sessionShort p |})
    else (Returns tt,
          {| data := with_session newId
                       (with_no_messages (with_storage (insert "session_id" (JStr newId)) w1));
             clearing := clearing p; sessionShort := _short newId |}).
Proof.
  unfold onNewSession, _genSessionId, bind, Date_now, ret, wx_setStorageSync.
  cbn [env storage_calls with_clock_read].
  destruct (storage_fault (env (data p)) (storage_calls (data p))); reflexivity.
Qed.

(** X13. [onNewSession] at a time and a draw that are not negative: when
    the storage works, the new id, time, hyphen and draw in decimal, is what
    the store holds under [session_id] and what the page has as its
    session, the short form shown is the draw, the chat is empty, and every
    other stored key is as before. When the write throws, the call throws
    and the page keeps its session, its short form and its messages, and
    the store is untouched. *)
Theorem new_session_is_stored_and_shown (draw : Z) (p : ChatPage) :
  (0 <= clock (env (data p)) (clock_reads (data p)))%Z ->
  (0 <= draw < 1000000)%Z ->
  let newId := dec (clock (env (data p)) (clock_reads (data p))) ++ 45 :: dec draw in
  let p' := snd (onNewSession draw p) in
  if storage_fault (env (data p)) (storage_calls (data p))
  then fst (onNewSession draw p) = Throws StorageError /\
       sessionId (data p') = sessionId (data p) /\
       sessionShort p' = sessionShort p /\
       messages (data p') = messages (data p) /\
       storage (data p') = storage (data p)
  else fst (onNewSession draw p) = Returns tt /\
       sessionId (data p') = newId /\
       storage (data p') !! "session_id" = Some (JStr newId) /\
       sessionShort p' = dec draw /\
       messages (data p') = [] /\
       forall k, k <> "session_id" -> storage (data p') !! k = storage (data p) !! k.
Proof.
  intros Hnow [Hdraw _] newId p'. subst p'. rewrite onNewSession_run. fold newId.
  cbv zeta.
  destruct (storage_fault (env (data p)) (storage_calls (data p))); cbn [fst snd].
  - repeat split.
  - split; [reflexivity|]. split; [reflexivity|].
    split; [apply lookup_insert_eq|].
    split; [apply short_of_generated; assumption|].
    split; [reflexivity|].
    intros k Hk. cbn. apply lookup_insert_ne. congruence.
Qed.

Lemma new_session_is_stored_and_shown_witness :
  sessionShort (snd (onNewSession 7
                       {| data := initial_world (replying (js "yo"));
                          clearing := false; sessionShort := js "424242" |}))
  = js "7".
Proof.
  pose proof (new_session_is_stored_and_shown 7
                {| data := initial_world (replying (js "yo"));
                   clearing := false; sessionShort := js "424242" |}) as H.
  cbv zeta in H.
  assert (Hnow : (0 <= clock (env (data {| data := initial_world (replying (js "yo"));
                                           clearing := false; sessionShort := js "424242" |}))
                         (clock_reads (data {| data := initial_world (replying (js "yo"));
                                               clearing := false;
                                               sessionShort := js "424242" |})))%Z)
    by (vm_compute; discriminate).
  assert (Hdraw : (0 <= 7 < 1000000)%Z) by lia.
  specialize (H Hnow Hdraw).
  change (storage_fault
            (env (data {| data := initial_world (replying (js "yo"));
                          clearing := false; sessionShort := js "424242" |}))
            (storage_calls (data {| data := initial_world (replying (js "yo"));
                                    clearing := false; sessionShort := js "424242" |})))
    with false in H.
  exact (proj1 (proj2 (proj2 (proj2 H)))).
Defined.

(** ** The session of the home page *)

Lemma grows_refl (P : Event -> Prop) (w : World) : grows P w w.
Proof. exists []. split; [symmetry; apply app_nil_r|constructor]. Qed.

Lemma grows_trans (P : Event -> Prop) (w w1 w2 : World) :
  grows P w w1 -> grows P w1 w2 -> grows P w w2.
Proof.
  intros (evs & Ht & Hev) (evs' & Ht' & Hev').
  exists (evs ++ evs'). split; [rewrite Ht', Ht, app_assoc; reflexivity|].
  apply Forall_app_2; assumption.
Qed.

Lemma grows_same (P : Event -> Prop) (w w' : World) :
  trace w' = trace w -> grows P w w'.
Proof. intros Ht. exists []. split; [rewrite Ht, app_nil_r; reflexivity|constructor]. Qed.

Lemma grows_event (P : Event -> Prop) (ev : Event) (w w' : World) :
  trace w' = trace w ++ [ev] -> P ev -> grows P w w'.
Proof. intros Ht Hev. exists [ev]. split; [exact Ht|]. constructor; [exact Hev|constructor]. Qed.

Lemma grows_then (P : Event -> Prop) (w w1 w2 : World) :
  grows P w w1 -> trace w2 = trace w1 -> grows P w w2.
Proof. intros H Ht. eapply grows_trans; [exact H|]. apply grows_same. exact Ht. Qed.

Lemma grows_then_event (P : Event -> Prop) (ev : Event) (w w1 w2 : World) :
  grows P w w1 -> trace w2 = trace w1 ++ [ev] -> P ev -> grows P w w2.
Proof.
  intros H Ht Hev. eapply grows_trans; [exact H|]. apply (grows_event P ev); assumption.
Qed.

Lemma carrying_request (d : JSVal) (r : Request) : body r = d -> carrying d (EvRequest r).
Proof. intros H r' [= <-]. exact H. Qed.

Lemma carrying_other (d : JSVal) (ev : Event) :
  (forall r, ev <> EvRequest r) -> carrying d ev.
Proof. intros H r E. destruct (H r E). Qed.

Lemma grows_wxRequest method path (d : JSVal) (w : World) :
  grows (carrying d) w (snd (_wxRequest method path d w)).
Proof.
  assert (Hgo : forall (base : JSVal) (local : bool),
             grows (carrying d) w
               (snd (try_catch (attempt method path d base)
                       (fun _ => setBaseUrl (JStr (if local then DEFAULTS_1 else DEFAULTS_0)) >>
                                 attempt method path d
                                   (JStr (if local then DEFAULTS_1 else DEFAULTS_0)))
                       (with_storage id w)))).
  { intros base local. unfold try_catch. rewrite attempt_run.
    destruct (settle base _) as [r|e]; cbn [snd].
    - apply (grows_event _ (EvRequest {| url := ToString base ++ path; method := method;
                                         body := d |})); [reflexivity|].
      apply carrying_request. reflexivity.
    - unfold bind. rewrite setBaseUrl_run, attempt_run. cbn [snd].
      match goal with
      | |- grows _ _ (with_request (with_event (EvRequest ?r2)
                                      (written _ ?alt (with_request (with_event (EvRequest ?r1) ?w0))))) =>
          apply (grows_then_event _ (EvRequest r2) w
                   (written "BASE_URL" alt (with_request (with_event (EvRequest r1) w0))));
            [apply (grows_then_event _ (EvSetStorage "BASE_URL" alt) w
                      (with_request (with_event (EvRequest r1) w0)));
               [apply (grows_event _ (EvRequest r1)); [reflexivity|]|reflexivity|]
            |reflexivity|]
      end;
        first [apply carrying_request; reflexivity | apply carrying_other; discriminate]. }
  assert (Hp : _wxRequest method path d w
               = (let! local := call_includes (stored_base w) (js "127.0.0.1") in
                  try_catch (attempt method path d (stored_base w))
                    (fun _ => setBaseUrl (JStr (if local then DEFAULTS_1 else DEFAULTS_0)) >>
                              attempt method path d
                                (JStr (if local then DEFAULTS_1 else DEFAULTS_0))))
                   (with_storage id w)).
  { unfold _wxRequest, withFallback, bind at 1. rewrite getStoredBaseUrl_run. reflexivity. }
  rewrite Hp. clear Hp.
  destruct (stored_base w) as [| |b|m e|s|l|props] eqn:E;
    try (apply grows_same; reflexivity).
  - apply (Hgo (JStr s)).
  - apply (Hgo (JArr l)).
Qed.

Lemma grows_post (path : jsstring) (d : JSVal) (w : World) :
  grows (carrying d) w (snd (post path d w)).
Proof.
  rewrite post_run. pose proof (grows_wxRequest POST path d w) as H.
  destruct (_wxRequest POST path d w) as [[res|e] w1]; cbn [persisted snd] in *; [|exact H].
  destruct (truthy (res_base res)); [|exact H].
  apply (grows_then_event _ (EvSetStorage "BASE_URL" (res_base res)) w w1);
    [exact H|reflexivity|apply carrying_other; discriminate].
Qed.

Lemma grows_show_and_save (d item : JSVal) (w : World) :
  grows (carrying d) w (snd (show_and_save item w)).
Proof.
  rewrite show_and_save_run, saveHistoryItem_run. cbn [snd].
  destruct (storage_fault _ _); [apply grows_same; reflexivity|].
  destruct (history_value _); try (apply grows_same; reflexivity).
  eapply grows_event; [reflexivity|apply carrying_other; discriminate].
Qed.

Lemma grows_fetchSuggestion (sid : JSVal) (w : World) :
  grows (carrying (suggestion_request sid)) w (snd (fetchSuggestion sid w)).
Proof.
  rewrite fetchSuggestion_run.
  pose proof (grows_post (js "/chat") (suggestion_request sid) w) as Hpost.
  destruct (post (js "/chat") (suggestion_request sid) w) as [[res|e] w1]; cbn [snd] in *.
  - eapply grows_trans; [exact Hpost|].
    destruct (learned_items res) as [[item rest]|]; [apply grows_show_and_save|].
    rewrite suggest_from_reply_run.
    destruct (tagged_item _); [apply grows_show_and_save|].
    destruct (4 <=? _)%nat; [apply grows_show_and_save|]. cbn [snd].
    eapply grows_event; [reflexivity|apply carrying_other; discriminate].
  - eapply grows_then_event; [exact Hpost|reflexivity|apply carrying_other; discriminate].
Qed.

Lemma fetchSuggestion_returns (sid : JSVal) (w : World) :
  fst (fetchSuggestion sid w) = Returns tt.
Proof.
  rewrite fetchSuggestion_run.
  destruct (post _ _ w) as [[res|e] w1]; [|reflexivity].
  destruct (learned_items res) as [[item rest]|].
  - rewrite show_and_save_run. reflexivity.
  - rewrite suggest_from_reply_run.
    destruct (tagged_item _); [rewrite show_and_save_run; reflexivity|].
    destruct (4 <=? _)%nat; [rewrite show_and_save_run|]; reflexivity.
Qed.

Lemma onLoad_run (draw : Z) (w : World) :
  Home.onLoad draw w =
    if storage_fault (env w) (storage_calls w)
    then (Throws StorageError, with_storage id w)
    else if truthy (stored_session w)
    then fetchSuggestion (stored_session w) (with_storage id w)
    else
      let sid := JStr (dec (clock (env w) (clock_reads w)) ++ 45 :: dec draw) in
      let w1 := with_event (EvSetStorage "session_id" sid)
                  (with_clock_read (with_storage id w)) in
      if storage_fault (env w) (S (storage_calls w))
      then (Throws StorageError, with_storage id w1)
      else fetchSuggestion sid (with_storage (insert "session_id" sid) w1).
Proof.
  unfold Home.onLoad, bind at 1, wx_getStorageSync. fold (stored_session w).
  destruct (storage_fault (env w) (storage_calls w)); [reflexivity|].
  unfold bind at 1. destruct (truthy (stored_session w)); [reflexivity|].
  unfold bind, Date_now, ret, wx_setStorageSync.
  cbn [env storage_calls with_storage with_clock_read with_event].
  destruct (storage_fault (env w) (S (storage_calls w))); reflexivity.
Qed.

Lemma session_key_kept (w w' : World) :
  confined ["BASE_URL"; "learning_history"] w w' -> stored_session w' = stored_session w.
Proof.
  intros (_ & Hk & _). unfold stored_session. rewrite Hk; [reflexivity|].
  intros Hin. apply elem_of_cons in Hin as [Hin|Hin]; [discriminate|].
  apply list_elem_of_singleton in Hin. discriminate.
Qed.

Lemma generated_truthy (now draw : Z) : truthy (JStr (dec now ++ 45 :: dec draw)) = true.
Proof. cbn [truthy]. destruct (dec now); reflexivity. Qed.

Lemma onLoad_session (draw : Z) (w : World) :
  storage_fault (env w) (storage_calls w) = false ->
  storage_fault (env w) (S (storage_calls w)) = false ->
  exists sid w0,
    truthy sid = true /\
    (truthy (stored_session w) = true -> sid = stored_session w) /\
    stored_session w0 = sid /\ env w0 = env w /\
    Home.onLoad draw w = fetchSuggestion sid w0 /\
    grows (carrying (suggestion_request sid)) w w0.
Proof.
  intros H0 H1. rewrite onLoad_run, H0. cbv zeta. rewrite H1.
  destruct (truthy (stored_session w)) eqn:Et.
  - exists (stored_session w), (with_storage id w).
    split; [exact Et|]. split; [reflexivity|]. split; [reflexivity|]. split; [reflexivity|].
    split; [reflexivity|]. apply grows_same. reflexivity.
  - eexists _, _. split; [apply generated_truthy|]. split; [discriminate|].
    split; [|split; [|split; [reflexivity|]]].
    + unfold stored_session. cbn [storage with_storage]. rewrite lookup_insert_eq. reflexivity.
    + reflexivity.
    + eapply grows_event; [reflexivity|apply carrying_other; discriminate].
Qed.

(** X14. The home page creates its session once. With a storage that
    works, the first [onLoad] ends with a truthy id in the store, the one
    that was there or else a new one, and a second [onLoad], whatever its
    draw, finds it: every request of the two loads carries that id in the
    body of the suggestion request, the store still holds it afterwards,
    and the second load does not write the key. *)
Theorem home_session_is_created_once (d1 d2 : Z) (w : World) :
  (forall n, storage_fault (env w) n = false) ->
  let w1 := snd (Home.onLoad d1 w) in
  let w2 := snd (Home.onLoad d2 w1) in
  exists sid evs1 evs2,
    truthy sid = true /\
    (truthy (stored_session w) = true -> sid = stored_session w) /\
    stored_session w1 = sid /\ stored_session w2 = sid /\
    trace w1 = trace w ++ evs1 /\ trace w2 = trace w1 ++ evs2 /\
    (forall r, EvRequest r ∈ evs1 ++ evs2 -> body r = suggestion_request sid) /\
    (forall v, EvSetStorage "session_id" v ∉ evs2).
Proof.
  intros Hok w1 w2.
  destruct (onLoad_session d1 w (Hok _) (Hok _)) as (sid & w0 & Ht & Hold & Hs0 & He0 & Hrun & Hg0).
  pose proof (confined_fetchSuggestion sid w0) as Hc1.
  pose proof (grows_fetchSuggestion sid w0) as Hg1.
  rewrite <- Hrun in Hc1, Hg1. fold w1 in Hc1, Hg1.
  pose proof (session_key_kept _ _ Hc1) as Hs1. rewrite Hs0 in Hs1.
  assert (He1 : env w1 = env w) by (destruct Hc1 as (He & _); congruence).
  assert (Hrun2 : Home.onLoad d2 w1 = fetchSuggestion sid (with_storage id w1)).
  { rewrite onLoad_run, He1, Hok, Hs1, Ht. reflexivity. }
  pose proof (confined_fetchSuggestion sid (with_storage id w1)) as Hc2.
  pose proof (grows_fetchSuggestion sid (with_storage id w1)) as Hg2.
  rewrite <- Hrun2 in Hc2, Hg2. fold w2 in Hc2, Hg2.
  pose proof (session_key_kept _ _ Hc2) as Hs2.
  change (stored_session (with_storage id w1)) with (stored_session w1) in Hs2.
  rewrite Hs1 in Hs2.
  destruct (grows_trans _ _ _ _ Hg0 Hg1) as (evs1 & Ht1 & Hev1).
  destruct Hg2 as (evs2 & Ht2 & Hev2).
  destruct Hc2 as (_ & _ & evs2' & Ht2' & Hw2).
  assert (evs2' = evs2) as -> by (apply (app_inv_head (trace (with_storage id w1))); congruence).
  exists sid, evs1, evs2.
  split; [exact Ht|]. split; [exact Hold|]. split; [exact Hs1|]. split; [exact Hs2|].
  split; [exact Ht1|]. split; [exact Ht2|]. split.
  - intros r Hin. apply elem_of_app in Hin as [Hin|Hin].
    + exact (proj1 (Forall_forall _ _) Hev1 _ Hin r eq_refl).
    + exact (proj1 (Forall_forall _ _) Hev2 _ Hin r eq_refl).
  - intros v Hin. specialize (Hw2 _ _ Hin).
    apply elem_of_cons in Hw2 as [Hw2|Hw2]; [discriminate|].
    apply list_elem_of_singleton in Hw2. discriminate.
Qed.

Lemma home_session_is_created_once_witness :
  exists sid evs1 evs2,
    truthy sid = true /\
    (truthy (stored_session (initial_world (replying (js "a|b|c|d")))) = true ->
     sid = stored_session (initial_world (replying (js "a|b|c|d")))) /\
    stored_session (snd (Home.onLoad 5 (initial_world (replying (js "a|b|c|d"))))) = sid /\
    stored_session (snd (Home.onLoad 9 (snd (Home.onLoad 5 (initial_world (replying (js "a|b|c|d")))))))
    = sid /\
    trace (snd (Home.onLoad 5 (initial_world (replying (js "a|b|c|d")))))
    = trace (initial_world (replying (js "a|b|c|d"))) ++ evs1 /\
    trace (snd (Home.onLoad 9 (snd (Home.onLoad 5 (initial_world (replying (js "a|b|c|d")))))))
    = trace (snd (Home.onLoad 5 (initial_world (replying (js "a|b|c|d"))))) ++ evs2 /\
    (forall r, EvRequest r ∈ evs1 ++ evs2 -> body r = suggestion_request sid) /\
    (forall v, EvSetStorage "session_id" v ∉ evs2).
Proof.
  apply (home_session_is_created_once 5 9 (initial_world (replying (js "a|b|c|d")))).
  intros n. reflexivity.
Defined.

(** X15. [onLoad] of the home page fails on the storage alone. It throws
    exactly when the read of [session_id] throws, or when no truthy id is
    stored and the write of the new one throws; the error is the storage's,
    no request has been sent, the card still shows what it showed and the
    store is untouched. In every other case it returns, whatever the server
    does. *)
Theorem home_load_fails_on_storage_alone (draw : Z) (w : World) :
  let failing :=
    storage_fault (env w) (storage_calls w) ||
    (negb (truthy (stored_session w)) && storage_fault (env w) (S (storage_calls w))) in
  fst (Home.onLoad draw w) = (if failing then Throws StorageError else Returns tt) /\
  (failing = true ->
   requests (snd (Home.onLoad draw w)) = requests w /\
   suggestion (snd (Home.onLoad draw w)) = suggestion w /\
   storage (snd (Home.onLoad draw w)) = storage w).
Proof.
  intros failing. subst failing. rewrite onLoad_run. cbv zeta.
  destruct (storage_fault (env w) (storage_calls w)); cbn [orb fst snd].
  - split; [reflexivity|]. intros _. repeat split.
  - destruct (truthy (stored_session w)); cbn [negb andb].
    + split; [apply fetchSuggestion_returns|discriminate].
    + destruct (storage_fault (env w) (S (storage_calls w))); cbn [fst snd].
      * split; [reflexivity|]. intros _. repeat split.
      * split; [apply fetchSuggestion_returns|discriminate].
Qed.
